(** * Portfolio analytics and optimisation engine (backend/app.py)

    A shallow embedding of the numerical core of [backend/app.py]:
    the holdings performance calculator, the returns statistics, the
    weight optimiser, the momentum screener and the horizon comparator.

    Numbers.  Python and numpy floats are idealised as rationals [Q]:
    finite values, exact arithmetic.  Equalities between computed
    numbers are therefore stated with [==] and hold exactly where the
    program only reaches them up to rounding.  What the idealisation
    would hide is written out instead:
    - a Python [float / float] raises [ZeroDivisionError] on a zero
      divisor, so it is the fallible [Py.truediv];
    - a numpy or pandas division by zero raises nothing and yields a
      value that is not finite; the series that are searched for
      missing values afterwards hold options ([Optimizer.max_drawdown]),
      and the one that is ranked afterwards holds the infinities too
      ([Endpoint.six_month_returns]).

    Containers.  A Python [dict] keeps insertion order and one entry
    per key: it is an association list updated in place ([Py.dict]). *)

From Stdlib Require Import String.
From Stdlib Require Import QArith Qabs Qminmax ZArith List Bool.
From Stdlib Require Import Lia Lqa Permutation Sorted.
Import ListNotations.
Local Open Scope Q_scope.

(** ** Python values and effects *)

Module Py.

Inductive exn : Type :=
| ZeroDivisionError
| ValueError (msg : string).

Inductive result (A : Type) : Type :=
| Ok (a : A)
| Raise (e : exn).
Arguments Ok {A} a.
Arguments Raise {A} e.

Definition bind {A B} (m : result A) (k : A -> result B) : result B :=
  match m with
  | Ok a => k a
  | Raise e => Raise e
  end.

(** A [for] loop whose body may raise. *)
Fixpoint foldM {A S} (body : S -> A -> result S) (l : list A) (s : S)
  : result S :=
  match l with
  | [] => Ok s
  | x :: l' => bind (body s x) (foldM body l')
  end.

Definition Qlt_bool (x y : Q) : bool := negb (Qle_bool y x).

(** [x / y] on Python floats. *)
Definition truediv (x y : Q) : result Q :=
  if Qeq_bool y 0 then Raise ZeroDivisionError else Ok (x / y).

(** [dict]: insertion ordered, one entry per key. *)
Definition dict (V : Type) : Type := list (string * V).

Fixpoint get {V} (d : dict V) (k : string) : option V :=
  match d with
  | [] => None
  | (k', v) :: d' => if String.eqb k k' then Some v else get d' k
  end.

(** [d.get(k, default)] *)
Definition get_default {V} (d : dict V) (k : string) (default : V) : V :=
  match get d k with
  | Some v => v
  | None => default
  end.

(** [d[k] = v] *)
Fixpoint set {V} (d : dict V) (k : string) (v : V) : dict V :=
  match d with
  | [] => [(k, v)]
  | (k', v') :: d' =>
      if String.eqb k k' then (k', v) :: d' else (k', v') :: set d' k v
  end.

(** [d[k] += w] on a [defaultdict(float)]. *)
Definition add_to (d : dict Q) (k : string) (w : Q) : dict Q :=
  set d k (get_default d k 0 + w).

(** [dict(zip(keys, vals))] *)
Definition of_zip {V} (keys : list string) (vals : list V) : dict V :=
  fold_left (fun d kv => set d (fst kv) (snd kv)) (combine keys vals) [].

Definition keys {V} (d : dict V) : list string := map fst d.
Definition values {V} (d : dict V) : list V := map snd d.

(** [l[:n]] and [l[-n:]] for a literal [n]. *)
Definition take {A} (n : nat) (l : list A) : list A := firstn n l.
Definition take_last {A} (n : nat) (l : list A) : list A :=
  skipn (List.length l - n) l.

Definition Qsum (l : list Q) : Q := fold_right Qplus 0 l.

End Py.

Notation "x <- m ;; k" := (Py.bind m (fun x => k))
  (at level 61, m at next level, right associativity).

(** ** Feature 1: current holdings analyser *)

Module Holdings.
Import Py.

Record holding : Type := {
  ticker : string;
  entry_date : string;
  entry_price : Q;
  quantity : Q
}.

(** One entry of [portfolio_data]. *)
Record stock : Type := {
  stock_ticker : string;
  stock_entry_price : Q;
  current_price : Q;
  stock_quantity : Q;
  invested_amount : Q;
  current_value : Q;
  gain_loss : Q;
  gain_loss_pct : Q;
  sector : string;
  asset_class : string
}.

Record analytics : Type := {
  portfolio_data : list stock;
  total_invested : Q;
  total_current_value : Q;
  total_gain_loss : Q;
  total_return_pct : Q;
  top_gainers : list (string * Q);
  top_losers : list (string * Q);
  sector_exposure : dict Q;
  asset_allocation : dict Q
}.

(** [list.sort(key=..., reverse=True)]: stable, descending. *)
Fixpoint insert_desc {A} (key : A -> Q) (x : A) (l : list A) : list A :=
  match l with
  | [] => [x]
  | y :: l' =>
      if Qle_bool (key y) (key x) then x :: l else y :: insert_desc key x l'
  end.

Definition sort_desc {A} (key : A -> Q) (l : list A) : list A :=
  fold_right (insert_desc key) [] l.

Section Calculator.
Variable current_prices : dict Q.
Variables sector_map class_map : dict string.

(** Body of the first loop (lines 152-178). *)
Definition performance_step (acc : list stock * Q * Q) (h : holding)
  : result (list stock * Q * Q) :=
  let '(portfolio_data, total_invested, total_current_value) := acc in
  let ticker := ticker h in
  let entry_price := entry_price h in
  let quantity := quantity h in
  let current_price := get_default current_prices ticker 0 in
  if Qlt_bool 0 current_price && Qlt_bool 0 entry_price then
    let invested_amount := entry_price * quantity in
    let current_value := current_price * quantity in
    let gain_loss := current_value - invested_amount in
    gain_loss_pct <-
      (if Qlt_bool 0 invested_amount
       then q <- truediv gain_loss invested_amount ;; Ok (q * 100)
       else Ok 0) ;;
    Ok (portfolio_data ++
          [ {| stock_ticker := ticker;
               stock_entry_price := entry_price;
               current_price := current_price;
               stock_quantity := quantity;
               invested_amount := invested_amount;
               current_value := current_value;
               gain_loss := gain_loss;
               gain_loss_pct := gain_loss_pct;
               sector := get_default sector_map ticker "Other"%string;
               asset_class := get_default class_map ticker "Other"%string |} ],
        total_invested + invested_amount,
        total_current_value + current_value)
  else Ok acc.

(** Body of the exposure loop (lines 196-202). *)
Definition exposure_step (total_current_value : Q)
  (acc : dict Q * dict Q) (s : stock) : result (dict Q * dict Q) :=
  let '(sector_exposure, class_exposure) := acc in
  if Qlt_bool 0 total_current_value then
    sector_weight <- truediv (current_value s) total_current_value ;;
    class_weight <- truediv (current_value s) total_current_value ;;
    Ok (add_to sector_exposure (sector s) sector_weight,
        add_to class_exposure (asset_class s) class_weight)
  else Ok acc.

(** The pair reported for a gainer or a loser. *)
Definition ratio_entry (s : stock) : string * Q :=
  (stock_ticker s, gain_loss_pct s / 100).

Definition calculate_holdings_performance (holdings : list holding)
  : result analytics :=
  acc <- foldM performance_step holdings ([], 0, 0) ;;
  let '(portfolio_data, total_invested, total_current_value) := acc in
  let total_gain_loss := total_current_value - total_invested in
  total_return_pct <-
    (if Qlt_bool 0 total_invested
     then q <- truediv total_gain_loss total_invested ;; Ok (q * 100)
     else Ok 0) ;;
  let portfolio_data := sort_desc gain_loss_pct portfolio_data in
  let top_gainers :=
    map ratio_entry
      (filter (fun s => Qlt_bool 0 (gain_loss_pct s))
         (take 5 portfolio_data)) in
  let top_losers :=
    map ratio_entry
      (filter (fun s => Qlt_bool (gain_loss_pct s) 0)
         (take_last 5 portfolio_data)) in
  let top_losers := rev top_losers in
  exposures <-
    foldM (exposure_step total_current_value) portfolio_data ([], []) ;;
  let '(sector_exposure, class_exposure) := exposures in
  Ok {| portfolio_data := portfolio_data;
        total_invested := total_invested;
        total_current_value := total_current_value;
        total_gain_loss := total_gain_loss;
        total_return_pct := total_return_pct;
        top_gainers := top_gainers;
        top_losers := top_losers;
        sector_exposure := sector_exposure;
        asset_allocation := class_exposure |}.

End Calculator.

(** What the first loop keeps, and the entry it appends. *)
Definition price_of (current_prices : dict Q) (h : holding) : Q :=
  get_default current_prices (ticker h) 0.

Definition included (current_prices : dict Q) (h : holding) : bool :=
  Qlt_bool 0 (price_of current_prices h) && Qlt_bool 0 (entry_price h).

Definition invested_of (h : holding) : Q := entry_price h * quantity h.

Definition value_of (current_prices : dict Q) (h : holding) : Q :=
  price_of current_prices h * quantity h.

Definition stock_of (current_prices : dict Q)
  (sector_map class_map : dict string) (h : holding) : stock :=
  {| stock_ticker := ticker h;
     stock_entry_price := entry_price h;
     current_price := price_of current_prices h;
     stock_quantity := quantity h;
     invested_amount := invested_of h;
     current_value := value_of current_prices h;
     gain_loss := value_of current_prices h - invested_of h;
     gain_loss_pct :=
       if Qlt_bool 0 (invested_of h)
       then (value_of current_prices h - invested_of h) / invested_of h * 100
       else 0;
     sector := get_default sector_map (ticker h) "Other"%string;
     asset_class := get_default class_map (ticker h) "Other"%string |}.

(** The exposure map the second loop builds from sorted entries. *)
Definition exposure_of (total : Q) (key : stock -> string)
  (entries : list stock) : dict Q :=
  if Qlt_bool 0 total
  then fold_left (fun d s => add_to d (key s) (current_value s / total))
         entries []
  else [].

(** The record returned, written from the holdings the first loop
    keeps ([calculate_closed_form] proves it is the one returned). *)
Definition analytics_of (current_prices : dict Q)
  (sector_map class_map : dict string) (kept : list holding) : analytics :=
  let entries :=
    sort_desc gain_loss_pct
      (map (stock_of current_prices sector_map class_map) kept) in
  let invested := fold_left (fun acc h => acc + invested_of h) kept 0 in
  let value :=
    fold_left (fun acc h => acc + value_of current_prices h) kept 0 in
  {| portfolio_data := entries;
     total_invested := invested;
     total_current_value := value;
     total_gain_loss := value - invested;
     total_return_pct :=
       if Qlt_bool 0 invested then (value - invested) / invested * 100
       else 0;
     top_gainers :=
       map ratio_entry
         (filter (fun s => Qlt_bool 0 (gain_loss_pct s)) (take 5 entries));
     top_losers :=
       rev (map ratio_entry
              (filter (fun s => Qlt_bool (gain_loss_pct s) 0)
                 (take_last 5 entries)));
     sector_exposure := exposure_of value sector entries;
     asset_allocation := exposure_of value asset_class entries |}.

(** Descending and ascending order of reported pairs. *)
Definition descending (l : list (string * Q)) : Prop :=
  StronglySorted (fun p q => snd q <= snd p) l.

Definition ascending (l : list (string * Q)) : Prop :=
  StronglySorted (fun p q => snd p <= snd q) l.

(** The end-to-end example: A bought at 100, now 110; B bought at 50,
    now 45. *)
Definition example_holdings : list holding :=
  [ {| ticker := "A"; entry_date := "2024-01-01"%string;
       entry_price := 100; quantity := 10 |};
    {| ticker := "B"; entry_date := "2024-01-01"%string;
       entry_price := 50; quantity := 20 |} ].

Definition example_prices : dict Q := [("A"%string, 110); ("B"%string, 45)].

End Holdings.

(** ** Feature 2: returns statistics and the weight optimiser *)

Module Optimizer.
Import Py.

(** A [DataFrame] of returns: one label per column, one row per
    period. *)
Record frame : Type := {
  columns : list string;
  rows : list (list Q)
}.

(** [np.dot] on two vectors, and on a matrix and a vector. *)
Definition dot (u v : list Q) : Q :=
  Qsum (map (fun p => fst p * snd p) (combine u v)).

Definition matvec (m : list (list Q)) (v : list Q) : list Q :=
  map (fun r => dot r v) m.

Definition column (j : nat) (rs : list (list Q)) : list Q :=
  map (fun r => nth j r 0) rs.

Definition count (l : list Q) : Q := inject_Z (Z.of_nat (List.length l)).

(** [DataFrame.mean()]: the mean of every column. *)
Definition mean_of (l : list Q) : Q := Qsum l / count l.

Definition mean (df : frame) : list Q :=
  map (fun j => mean_of (column j (rows df)))
    (seq 0 (List.length (columns df))).

(** [DataFrame.cov()]: sample covariance, divisor [T - 1]. *)
Definition cov_of (a b : list Q) : Q :=
  Qsum (map (fun p => (fst p - mean_of a) * (snd p - mean_of b))
          (combine a b))
  / (count a - 1).

Definition cov (df : frame) : list (list Q) :=
  let n := List.length (columns df) in
  map (fun j =>
         map (fun k => cov_of (column j (rows df)) (column k (rows df)))
           (seq 0 n))
    (seq 0 n).

(** Running scans: [Series.cumprod()] and [Series.cummax()]. *)
Fixpoint scan (f : Q -> Q -> Q) (acc : Q) (l : list Q) : list Q :=
  match l with
  | [] => []
  | x :: l' => f acc x :: scan f (f acc x) l'
  end.

Definition cumprod (l : list Q) : list Q :=
  match l with
  | [] => []
  | x :: l' => x :: scan Qmult x l'
  end.

Definition cummax (l : list Q) : list Q :=
  match l with
  | [] => []
  | x :: l' => x :: scan Qmax x l'
  end.

(** Element-wise division of two numpy series: no exception; a zero
    divisor leaves a value that is not finite, [None].  In
    [max_drawdown] below the divisor is a running maximum and the
    dividend is the value minus that maximum; on a cumulative product
    a zero maximum comes with a zero dividend, and the missing value
    is a nan. *)
Definition np_div (x y : Q) : option Q :=
  if Qeq_bool y 0 then None else Some (x / y).

(** [Series.min()], which skips nan and is nan on nothing left. *)
Fixpoint nanmin (l : list (option Q)) : option Q :=
  match l with
  | [] => None
  | None :: l' => nanmin l'
  | Some x :: l' =>
      match nanmin l' with
      | None => Some x
      | Some m => Some (Qmin x m)
      end
  end.

Definition drawdowns (cum_returns : list Q) : list (option Q) :=
  let roll_max := cummax cum_returns in
  map (fun p => np_div (fst p - snd p) (snd p))
    (combine cum_returns roll_max).

Definition max_drawdown (cum_returns : list Q) : option Q :=
  nanmin (drawdowns cum_returns).

(** What [scipy.optimize.minimize] is given and gives back. *)
Definition objective_fun : Type := list Q -> result (option Q).

Record constraint : Type := {
  ctype : string;
  cfun : list Q -> Q
}.

Record OptimizeResult : Type := {
  x : list Q;
  success : bool
}.

Record solver_call : Type := {
  call_fun : objective_fun;
  call_x0 : list Q;
  call_bounds : list (Q * Q);
  call_constraints : constraint
}.

(** Computations that may raise and that record the solves they
    start, in order. *)
Definition traced (A : Type) : Type := (list solver_call * result A)%type.

Definition tret {A} (a : A) : traced A := ([], Ok a).

Definition traise {A} (e : exn) : traced A := ([], Raise e).

Definition lift {A} (r : result A) : traced A := ([], r).

Definition tbind {A B} (m : traced A) (k : A -> traced B) : traced B :=
  match m with
  | (calls, Ok a) => let (calls', r) := k a in (calls ++ calls', r)
  | (calls, Raise e) => (calls, Raise e)
  end.

Section WithNumerics.
(** [np.sqrt] and [scipy.optimize.minimize] are library code. *)
Variable np_sqrt : Q -> Q.
Variable minimize :
  objective_fun -> list Q -> list (Q * Q) -> constraint -> OptimizeResult.

Definition portfolio_stats (weights : list Q) (returns_df : frame)
  (rf : Q) : result (Q * Q * Q) :=
  let mu := mean returns_df in
  let Sigma := cov returns_df in
  let port_return := dot weights mu * 252 in
  let port_vol := np_sqrt (dot weights (matvec Sigma weights))
                  * np_sqrt 252 in
  sharpe <- (if Qlt_bool 0 port_vol
             then truediv (port_return - rf) port_vol
             else Ok 0) ;;
  Ok (port_return, port_vol, sharpe).

Definition frame_dot (df : frame) (w : list Q) : list Q :=
  map (fun r => dot r w) (rows df).

Definition neg_sharpe (returns_df : frame) (rf : Q) : objective_fun :=
  fun w =>
    stats <- portfolio_stats w returns_df rf ;;
    Ok (Some (- snd stats)).

Definition vol (returns_df : frame) (rf : Q) : objective_fun :=
  fun w =>
    stats <- portfolio_stats w returns_df rf ;;
    Ok (Some (snd (fst stats))).

Definition mdd_objective (returns_df : frame) : objective_fun :=
  fun w =>
    let port_returns := frame_dot returns_df w in
    let cum := cumprod (map (fun r => 1 + r) port_returns) in
    Ok (option_map Qabs (max_drawdown cum)).

Definition call_minimize (f : objective_fun) (x0 : list Q)
  (bounds : list (Q * Q)) (constraints : constraint)
  : traced OptimizeResult :=
  ([ {| call_fun := f; call_x0 := x0; call_bounds := bounds;
        call_constraints := constraints |} ],
   Ok (minimize f x0 bounds constraints)).

Definition sum_to_one : constraint :=
  {| ctype := "eq"; cfun := fun w => Qsum w - 1 |}.

Definition optimize_portfolio_weights (returns_df : frame)
  (objective : string) (rf : Q) : traced (dict Q * Q * Q * Q) :=
  let n := List.length (columns returns_df) in
  let w0 := repeat (1 / inject_Z (Z.of_nat n)) n in
  let bounds := repeat (0, 1) n in
  let constraints := sum_to_one in
  tbind
    (if String.eqb objective "sharpe" then
       call_minimize (neg_sharpe returns_df rf) w0 bounds constraints
     else if String.eqb objective "vol" then
       call_minimize (vol returns_df rf) w0 bounds constraints
     else if String.eqb objective "mdd" then
       call_minimize (mdd_objective returns_df) w0 bounds constraints
     else traise (ValueError "Unsupported objective"))
    (fun result =>
       let weights := x result in
       tbind (lift (portfolio_stats weights returns_df rf))
         (fun stats =>
            let '(port_return, port_vol, sharpe) := stats in
            tret (of_zip (columns returns_df) weights,
                  port_return, port_vol, sharpe))).

End WithNumerics.

(** *** The drawdown as the design states it

    [C_t] is the product of [1 + r_s] for [s <= t]; the running
    maximum at [t] is the largest [C_s] for [s <= t]; the drawdown at
    [t] is [(C_t - M_t) / M_t]. *)
Definition gross (r : list Q) : list Q := map (fun x => 1 + x) r.

Definition spec_cum (r : list Q) (t : nat) : Q :=
  fold_right Qmult 1 (gross (firstn (S t) r)).

Fixpoint spec_running_max (r : list Q) (t : nat) : Q :=
  match t with
  | O => spec_cum r O
  | S t' => Qmax (spec_running_max r t') (spec_cum r t)
  end.

Definition spec_drawdown (r : list Q) (t : nat) : Q :=
  (spec_cum r t - spec_running_max r t) / spec_running_max r t.

(** [m] is the least drawdown of [r] over the periods at which one is
    defined. *)
Definition is_min_drawdown (r : list Q) (m : Q) : Prop :=
  (exists t, (t < List.length r)%nat /\ ~ spec_running_max r t == 0 /\
             m == spec_drawdown r t) /\
  (forall t, (t < List.length r)%nat -> ~ spec_running_max r t == 0 ->
             m <= spec_drawdown r t).

(** The feasible set of the solve, up to a tolerance. *)
Definition feasible (tol : Q) (w : list Q) : Prop :=
  Forall (fun wi => 0 <= wi /\ wi <= 1) w /\ Qabs (Qsum w - 1) <= tol.

(** A point within the bounds it was given, pair by pair, and on the
    equality constraint it was given up to a tolerance. *)
Definition satisfies (tol : Q) (bounds : list (Q * Q)) (c : constraint)
  (w : list Q) : Prop :=
  Forall2 (fun wi b => fst b <= wi /\ wi <= snd b) w bounds /\
  Qabs (cfun c w) <= tol.

(** A solver for the examples: it stops at the initial guess. *)
Definition stay_put (f : objective_fun) (x0 : list Q)
  (bounds : list (Q * Q)) (c : constraint) : OptimizeResult :=
  {| x := x0; success := true |}.

(** A square root for the examples, rounded down to six decimals. *)
Definition sqrt_floor (q : Q) : Q :=
  inject_Z (Z.sqrt (Qnum q * 1000000000000 / Zpos (Qden q))) / 1000000.

Definition example_returns : frame :=
  {| columns := ["A"; "B"]%string;
     rows := [[1 # 10; -1 # 20]; [-1 # 5; 1 # 10]; [3 # 10; 0]] |}.

(** A solve over three tickers that ends without converging, at a
    point within the bounds and off the constraint. *)
Definition three_tickers : frame :=
  {| columns := ["A"; "B"; "C"]%string;
     rows := [[1 # 100; 2 # 100; - (1 # 100)];
              [- (2 # 100); 1 # 100; 3 # 100];
              [1 # 100; - (1 # 100); 2 # 100]] |}.

Definition unconverged (f : objective_fun) (x0 : list Q)
  (bounds : list (Q * Q)) (c : constraint) : OptimizeResult :=
  {| x := [1; 1; 0]; success := false |}.

End Optimizer.


(** ** Feature 2: the optimisation request handler *)

Module Endpoint.
Import Py.

(** An HTTP error reply of [optimize_endpoint]: status and message. *)
Record http_error : Type := {
  status : Z;
  message : string
}.

(** The replies that report too little data: status 400 with one of
    the handler's "not enough" messages. *)
Definition not_enough_to_rank : http_error :=
  {| status := 400; message := "Not enough 6-month data to rank stocks." |}.

Definition fewer_than_two : http_error :=
  {| status := 400; message := "Fewer than 2 valid stocks after ranking." |}.

(** *** Universe selection (lines 384-394) *)

(** One row of the universe table read by [load_nifty_mapping]. *)
Record universe_row : Type := {
  Symbol : string;
  Sector : string;
  AssetClass : string;
  Ticker : string
}.

(** [Series.isin] *)
Definition isin (v : string) (l : list string) : bool :=
  existsb (String.eqb v) l.

(** Truth value of a list. *)
Definition truthy {A} (l : list A) : bool :=
  match l with
  | [] => false
  | _ :: _ => true
  end.

Definition select_tickers (df : list universe_row)
  (sectors asset_classes : list string) : list string :=
  let all_tickers := map Ticker df in
  let filtered := df in
  let filtered :=
    if truthy sectors
    then filter (fun r => isin (Sector r) sectors) filtered
    else filtered in
  let filtered :=
    if truthy asset_classes
    then filter (fun r => isin (AssetClass r) asset_classes) filtered
    else filtered in
  let tickers := map Ticker filtered in
  if truthy tickers then tickers else all_tickers.

(** A row passes the filters that were given. *)
Definition matches (sectors asset_classes : list string)
  (r : universe_row) : bool :=
  (negb (truthy sectors) || isin (Sector r) sectors)
  && (negb (truthy asset_classes) || isin (AssetClass r) asset_classes).

(** *** Momentum screen (lines 396-408) *)

(** The adjusted-close matrix of [download_adjclose]: one column per
    ticker, one row per date, [None] where the provider has no
    price. *)
Record prices : Type := {
  tickers : list string;
  closes : list (list (option Q))
}.

Definition is_some {A} (o : option A) : bool :=
  match o with
  | Some _ => true
  | None => false
  end.

(** [dropna(how="all")] on the rows. *)
Definition dropna_all (p : prices) : prices :=
  {| tickers := tickers p;
     closes := filter (existsb is_some) (closes p) |}.

(** [DataFrame.empty]: some axis has length zero. *)
Definition empty (p : prices) : bool :=
  (List.length (tickers p) =? 0)%nat || (List.length (closes p) =? 0)%nat.

Definition cell (j : nat) (row : list (option Q)) : option Q :=
  nth j row None.

(** A float that is not nan: a finite value or an infinity. *)
Inductive number : Type :=
| finite (q : Q)
| pos_inf
| neg_inf.

Definition number_leb (x y : number) : bool :=
  match x, y with
  | neg_inf, _ => true
  | _, pos_inf => true
  | finite a, finite b => Qle_bool a b
  | _, _ => false
  end.

Definition number_le (x y : number) : Prop := number_leb x y = true.

(** [b / a - 1] on two cells, last over first: nan, [None], when
    either is missing or both are zero; an infinity with the sign of
    the last price when only the first one is zero (a zero price is
    taken as +0.0). *)
Definition total_return (first last : option Q) : option number :=
  match first, last with
  | Some a, Some b =>
      if Qeq_bool a 0 then
        if Qeq_bool b 0 then None
        else if Qlt_bool 0 b then Some pos_inf else Some neg_inf
      else Some (finite (b / a - 1))
  | _, _ => None
  end.

(** [recent_prices.iloc[-1] / recent_prices.iloc[0] - 1], a series
    indexed by ticker. *)
Definition row_ratio (p : prices) : list (string * option number) :=
  let first := hd [] (closes p) in
  let last := List.last (closes p) [] in
  map (fun jt => (snd jt, total_return (cell (fst jt) first)
                            (cell (fst jt) last)))
    (combine (seq 0 (List.length (tickers p))) (tickers p)).

(** [Series.dropna()] *)
Fixpoint dropna {V} (s : list (string * option V)) : list (string * V) :=
  match s with
  | [] => []
  | (t, Some v) :: s' => (t, v) :: dropna s'
  | (t, None) :: s' => dropna s'
  end.

(** [Series.sort_values(ascending=False)]: the infinities sort like
    any other value.  Pandas does not fix the order of equal values;
    the stable order stands for it, and the results below use only
    that the outcome is sorted and a rearrangement. *)
Fixpoint insert_return (x : string * number) (l : list (string * number))
  : list (string * number) :=
  match l with
  | [] => [x]
  | y :: l' =>
      if number_leb (snd y) (snd x) then x :: l else y :: insert_return x l'
  end.

Definition sort_values_desc (s : list (string * number))
  : list (string * number) :=
  fold_right insert_return [] s.

(** [Series.head(n)]: the first [n] rows, all but the last [-n] for a
    negative [n]. *)
Definition head {A} (n : Z) (l : list A) : list A :=
  if (0 <=? n)%Z then firstn (Z.to_nat n) l
  else firstn (List.length l - Z.to_nat (- n)) l.

Definition six_month_returns (recent_prices : prices)
  : list (string * number) :=
  sort_values_desc (dropna (row_ratio recent_prices)).

(** From the downloaded window to [chosen], or the error reply. *)
Definition screen (downloaded : prices) (num_stocks : Z)
  : http_error + list string :=
  let recent_prices := dropna_all downloaded in
  if empty recent_prices || (List.length (closes recent_prices) <? 2)%nat
  then inl not_enough_to_rank
  else
    let chosen := map fst (head num_stocks (six_month_returns recent_prices)) in
    if (List.length chosen <? 2)%nat then inl fewer_than_two
    else inr chosen.

(** The number of prices a ticker (by column number) has in the
    window. *)
Definition observations (j : nat) (p : prices) : nat :=
  List.length (filter is_some (map (cell j) (closes p))).

(** Three dates; C enters the market on the second one. *)
Definition late_listing : prices :=
  {| tickers := ["A"; "B"; "C"]%string;
     closes := [ [Some 100; Some 50; None];
                 [Some 110; Some 55; Some 10];
                 [Some 120; Some 45; Some 20] ] |}.

(** Two dates; A starts from a price of zero. *)
Definition zero_start : prices :=
  {| tickers := ["A"; "B"]%string;
     closes := [ [Some 0; Some 50]; [Some 10; Some 55] ] |}.

(** *** Horizon returns (lines 430-459) *)

Record date : Type := {
  year : Z;
  month : Z;
  day : Z
}.

Definition date_leb (a b : date) : bool :=
  ((year a <? year b)
   || ((year a =? year b)
       && ((month a <? month b)
           || ((month a =? month b) && (day a <=? day b)))))%Z.

Definition is_leap (y : Z) : bool :=
  (((y mod 4 =? 0) && negb (y mod 100 =? 0)) || (y mod 400 =? 0))%Z.

Definition days_in_month (y m : Z) : Z :=
  if (m =? 2)%Z then (if is_leap y then 29 else 28)%Z
  else if ((m =? 4) || (m =? 6) || (m =? 9) || (m =? 11))%Z then 30%Z
  else 31%Z.

(** [d - pd.DateOffset(months=n)]: the calendar month moves back and
    the day is cut to the length of the month reached. *)
Definition minus_months (d : date) (n : Z) : date :=
  let total := (year d * 12 + (month d - 1) - n)%Z in
  let y := (total / 12)%Z in
  let m := (total mod 12 + 1)%Z in
  {| year := y; month := m; day := Z.min (day d) (days_in_month y m) |}.

(** [d - pd.DateOffset(years=n)] *)
Definition minus_years (d : date) (n : Z) : date :=
  let y := (year d - n)%Z in
  {| year := y; month := month d;
     day := Z.min (day d) (days_in_month y (month d)) |}.

(** The values of the [horizons] table. *)
Inductive params : Type :=
| months (n : Z)
| years (n : Z)
| ytd.

Definition horizons : list (string * params) :=
  [ ("1M", months 1); ("3M", months 3); ("6M", months 6);
    ("YTD", ytd); ("1Y", years 1) ]%string.

Definition window_start (today : date) (p : params) : date :=
  match p with
  | ytd => {| year := year today; month := 1; day := 1 |}
  | months n => minus_months today n
  | years n => minus_years today n
  end.

(** A dated series. *)
Definition series : Type := list (date * Q).

(** [get_period] for the horizon with parameters [p].  The quotient
    of two numpy floats raises nothing; what numpy gives on a zero
    first value is not told apart here. *)
Definition get_period (today : date) (p : params) (s : series) : option Q :=
  let start := window_start today p in
  let sub := filter (fun dv => date_leb start (fst dv)) s in
  if (List.length sub <? 2)%nat then None
  else Some (snd (List.last sub (start, 0)) / snd (hd (start, 0) sub) - 1).

(** One row of [aligned]. *)
Record aligned_row : Type := {
  on : date;
  Portfolio : Q;
  Nifty : Q
}.

Record horizon_result : Type := {
  portfolio_return : option Q;
  benchmark_return : option Q
}.

Definition column_of (f : aligned_row -> Q) (aligned : list aligned_row)
  : series :=
  map (fun r => (on r, f r)) aligned.

(** The loop over [horizons] filling [results]. *)
Definition benchmark_returns (today : date) (aligned : list aligned_row)
  : dict horizon_result :=
  fold_left
    (fun results hp =>
       set results (fst hp)
         {| portfolio_return :=
              get_period today (snd hp) (column_of Portfolio aligned);
            benchmark_return :=
              get_period today (snd hp) (column_of Nifty aligned) |})
    horizons [].

(** The design's reading of one horizon: keep the observations dated
    on or after the start; with two or more, last over first, less
    one. *)
Definition in_window (start : date) (s : series) : list Q :=
  map snd (filter (fun dv => date_leb start (fst dv)) s).

Definition windowed_return (obs : list Q) : option Q :=
  match obs with
  | first :: _ :: _ => Some (List.last obs 0 / first - 1)
  | _ => None
  end.

(** Ten days of data, 2024-03-06 to 2024-03-15. *)
Definition ten_days : list aligned_row :=
  map (fun k => {| on := {| year := 2024; month := 3; day := 5 + k |};
                   Portfolio := 100 + inject_Z k;
                   Nifty := 200 - inject_Z k |})
    [1; 2; 3; 4; 5; 6; 7; 8; 9; 10]%Z.

End Endpoint.


(** ** Feature 2: the charts and the weight table of the reply *)

Module Response.
Import Py Endpoint.

(** A calendar date as [datetime.date] accepts it. *)
Definition valid_date (d : date) : Prop :=
  (1 <= month d <= 12)%Z /\ (1 <= day d <= days_in_month (year d) (month d))%Z.

(** One entry of [chart_data]. *)
Record chart : Type := {
  dates : list string;
  portfolio : list Q;
  nifty : list Q
}.

Section Charts.
(** [Timestamp.strftime("%Y-%m-%d")] is library code. *)
Variable strftime : date -> string.

(** The chart of the horizon with parameters [p] (lines 461-477);
    every entry of [horizons] has a start. *)
Definition chart_of (today : date) (p : params)
  (aligned : list aligned_row) : chart :=
  let start := window_start today p in
  let sub := filter (fun r => date_leb start (on r)) aligned in
  {| dates := map (fun r => strftime (on r)) sub;
     portfolio := map Portfolio sub;
     nifty := map Nifty sub |}.

Definition chart_data (today : date) (aligned : list aligned_row)
  : dict chart :=
  fold_left
    (fun charts hp => set charts (fst hp) (chart_of today (snd hp) aligned))
    horizons [].

End Charts.

(** One row of [weight_table]. *)
Record weight_row : Type := {
  row_ticker : string;
  row_symbol : string;
  row_sector : string;
  row_asset_class : string;
  row_weight : Q
}.

(** [.iloc[0]] on a selection without rows. *)
Inductive lookup_error : Type :=
| IndexError.

(** [df[df["Ticker"] == t].iloc[0]] *)
Definition first_row (df : list universe_row) (t : string)
  : lookup_error + universe_row :=
  match find (fun r => String.eqb (Ticker r) t) df with
  | Some r => inr r
  | None => inl IndexError
  end.

(** The loop over [weights.items()] (lines 480-489). *)
Fixpoint weight_table_from (df : list universe_row) (items : list (string * Q))
  (weight_table : list weight_row) : lookup_error + list weight_row :=
  match items with
  | [] => inr weight_table
  | (t, w) :: items' =>
      match first_row df t with
      | inl e => inl e
      | inr row =>
          weight_table_from df items'
            (weight_table ++
               [ {| row_ticker := t;
                    row_symbol := Symbol row;
                    row_sector := Sector row;
                    row_asset_class := AssetClass row;
                    row_weight := w |} ])
      end
  end.

Definition weight_table (df : list universe_row) (weights : dict Q)
  : lookup_error + list weight_row :=
  weight_table_from df weights [].

End Response.

(** ** Feature 1: reading the uploads *)

Module Upload.
Import Py Holdings.

(** A row as [csv.reader] yields it. *)
Definition row : Type := list string.

Definition field (i : nat) (r : row) : string := nth i r ""%string.

Definition mentions (words : list string) (w : string) : bool :=
  existsb (String.eqb w) words.

(** The record that [upload] serialises. *)
Record reply : Type := {
  portfolioValue : Q;
  totalInvested : Q;
  totalGainLoss : Q;
  totalReturn : Q;
  topGainers : list (string * Q);
  topLosers : list (string * Q);
  sectorExposure : dict Q;
  assetAllocation : dict Q;
  portfolioDetails : list stock;
  unmappedTickers : list string;
  pricesFetched : nat;
  totalHoldings : nat
}.

(** The text sent when the request has no part named file; the name
    is quoted in it. *)
Definition no_file_part : string :=
  let quote := String (Ascii.ascii_of_nat 34) EmptyString in
  ("No holdings file part (key " ++ quote ++ "file" ++ quote ++ ")")%string.

Definition exn_message (e : exn) : string :=
  match e with
  | ZeroDivisionError => "float division by zero"
  | ValueError msg => msg
  end.

(** [list(set(l))]: each element once; Python leaves the order open,
    the order of first occurrence stands for it. *)
Fixpoint distinct (l : list string) : list string :=
  match l with
  | [] => []
  | t :: l' => t :: filter (fun u => negb (String.eqb u t)) (distinct l')
  end.

Section Reading.
(** [str.strip], [str.lower] and [float] are library code; [float]
    is [None] where Python raises. *)
Variable strip : string -> string.
Variable lower : string -> string.
Variable float : string -> option Q.

Definition float_or (default : Q) (s : string) : Q :=
  match float s with
  | Some q => q
  | None => default
  end.

(** One pass of the loop of [parse_current_holdings_csv] that appends. *)
Definition holding_of_row (r : row) : holding :=
  {| ticker := strip (field 0 r);
     entry_date := strip (field 1 r);
     entry_price := float_or 0 (field 2 r);
     quantity := if (3 <? length r)%nat then float_or 1 (field 3 r) else 1 |}.

Definition holdings_header (hdr : row) : bool :=
  (3 <=? length hdr)%nat
  && existsb
       (fun h => mentions ["ticker"; "symbol"; "entry"; "date"; "price";
                           "quantity"]%string (lower h))
       hdr.

(** [parse_current_holdings_csv], from the rows of the text. *)
Definition parse_current_holdings_csv (reader : list row) : list holding :=
  match reader with
  | [] => []
  | hdr :: _ =>
      let start := if holdings_header hdr then 1%nat else 0%nat in
      fold_left
        (fun holdings r =>
           if (length r <? 3)%nat then holdings
           else holdings ++ [holding_of_row r])
        (skipn start reader) []
  end.

Definition mapping_header (reader : list row) : bool :=
  match reader with
  | [] => false
  | hdr :: _ =>
      existsb (fun h => mentions ["ticker"; "symbol"]%string (lower h)) hdr
  end.

Definition or_other (present : bool) (s : string) : string :=
  if present && negb (String.eqb s "") then s else "Other"%string.

(** [load_mapping_file]: the two maps it leaves in [_sector_map] and
    [_class_map]; [None] is a path without a file. *)
Definition load_mapping_file (file : option (list row))
  : dict string * dict string :=
  match file with
  | None => ([], [])
  | Some reader =>
      let start := if mapping_header reader then 1%nat else 0%nat in
      fold_left
        (fun maps r =>
           match r with
           | [] => maps
           | _ :: _ =>
               let ticker := strip (field 0 r) in
               let sector :=
                 or_other (1 <? length r)%nat (strip (field 1 r)) in
               let cls :=
                 or_other (2 <? length r)%nat (strip (field 2 r)) in
               (set (fst maps) ticker sector, set (snd maps) ticker cls)
           end)
        (skipn start reader) ([], [])
  end.

(** How a call of [upload] ends: with an error reply, with the
    analytics, or with the exception of line 223, which no handler of
    the function catches. *)
Inductive outcome : Type :=
| error_reply (status : Z) (text : string)
| analytics_reply (r : reply)
| unicode_decode_error.

(** [bytes.decode('utf-8')] and [list(csv.reader(io.StringIO(text)))]
    are library code: the first is [None] where Python raises
    [UnicodeDecodeError], the second gives the text of the [csv.Error]
    where Python raises one. *)
Variable decode : list Byte.byte -> option string.
Variable csv_reader : string -> string + list row.

(** [upload]: [file] is the content of the uploaded part, if any;
    [get_current_prices] stands for the price provider; the two maps
    are the ones loaded at startup.  The decoding comes before the
    [try]; the reading of the rows, inside
    [parse_current_holdings_csv], is within it. *)
Definition upload (file : option (list Byte.byte))
  (get_current_prices : list string -> dict Q)
  (sector_map class_map : dict string) : outcome :=
  match file with
  | None => error_reply 400 no_file_part
  | Some f_hold =>
      match decode f_hold with
      | None => unicode_decode_error
      | Some holdings_text =>
          match csv_reader holdings_text with
          | inl e =>
              error_reply 500 ("Error processing holdings: " ++ e)%string
          | inr reader =>
              let holdings := parse_current_holdings_csv reader in
              match holdings with
              | [] => error_reply 400 "No valid holdings found in CSV"
              | _ :: _ =>
                  let tickers := map ticker holdings in
                  let current_prices := get_current_prices tickers in
                  match current_prices with
                  | [] =>
                      error_reply 500
                        "Unable to fetch current prices from Yahoo Finance"
                  | _ :: _ =>
                      match calculate_holdings_performance current_prices
                              sector_map class_map holdings with
                      | Raise e =>
                          error_reply 500
                            ("Error processing holdings: "
                             ++ exn_message e)%string
                      | Ok analytics =>
                          let all_tickers := distinct tickers in
                          let unmapped :=
                            filter
                              (fun t =>
                                 negb (Endpoint.is_some (get sector_map t)))
                              all_tickers in
                          analytics_reply
                            {| portfolioValue := total_current_value analytics;
                               totalInvested := total_invested analytics;
                               totalGainLoss := total_gain_loss analytics;
                               totalReturn := total_return_pct analytics / 100;
                               topGainers := top_gainers analytics;
                               topLosers := top_losers analytics;
                               sectorExposure := sector_exposure analytics;
                               assetAllocation := asset_allocation analytics;
                               portfolioDetails := portfolio_data analytics;
                               unmappedTickers := unmapped;
                               pricesFetched := length current_prices;
                               totalHoldings := length holdings |}
                      end
                  end
              end
          end
      end
  end.

End Reading.

End Upload.

(** * Facts *)

(** ** Numbers, lists and dictionaries *)

Section PyFacts.
Import Py.

Lemma Qlt_bool_iff (x y : Q) : Qlt_bool x y = true <-> x < y.
Proof.
  unfold Qlt_bool. rewrite negb_true_iff.
  split; intros H.
  - apply Qnot_le_lt. intros Hle.
    apply Qle_bool_iff in Hle. congruence.
  - destruct (Qle_bool y x) eqn:E; trivial.
    apply Qle_bool_iff in E. exfalso. apply (Qlt_not_le _ _ H E).
Qed.

Lemma truediv_nonzero (x y : Q) : ~ y == 0 -> truediv x y = Ok (x / y).
Proof.
  intros H. unfold truediv.
  destruct (Qeq_bool y 0) eqn:E; trivial.
  apply Qeq_bool_iff in E. contradiction.
Qed.

Lemma truediv_pos (x y : Q) : 0 < y -> truediv x y = Ok (x / y).
Proof.
  intros H. apply truediv_nonzero. intros E. rewrite E in H.
  apply (Qlt_irrefl 0 H).
Qed.

Lemma Qsum_perm (l1 l2 : list Q) : Permutation l1 l2 -> Qsum l1 == Qsum l2.
Proof.
  induction 1; simpl.
  - reflexivity.
  - rewrite IHPermutation. reflexivity.
  - ring.
  - etransitivity; eassumption.
Qed.

Lemma Qsum_scaled {A} (f : A -> Q) (c : Q) (l : list A) :
  Qsum (map (fun a => f a / c) l) == Qsum (map f l) / c.
Proof.
  unfold Qdiv.
  induction l as [|a l IH]; simpl.
  - ring.
  - rewrite IH. ring.
Qed.

Lemma fold_left_Qsum {A} (f : A -> Q) (l : list A) (z : Q) :
  fold_left (fun acc a => acc + f a) l z == z + Qsum (map f l).
Proof.
  revert z. induction l as [|a l IH]; intros z; simpl.
  - ring.
  - rewrite IH. ring.
Qed.

Lemma Qsum_set (d : dict Q) (k : string) (v : Q) :
  Qsum (values (set d k v)) == Qsum (values d) - get_default d k 0 + v.
Proof.
  unfold values, get_default.
  induction d as [|[k' v'] d IH]; simpl.
  - ring.
  - destruct (String.eqb k k'); simpl.
    + ring.
    + rewrite IH. ring.
Qed.

Lemma Qsum_add_to (d : dict Q) (k : string) (w : Q) :
  Qsum (values (add_to d k w)) == Qsum (values d) + w.
Proof.
  unfold add_to. rewrite Qsum_set. ring.
Qed.

Lemma Qsum_accumulate {A} (key : A -> string) (w : A -> Q) (l : list A)
  (d : dict Q) :
  Qsum (values (fold_left (fun d a => add_to d (key a) (w a)) l d))
  == Qsum (values d) + Qsum (map w l).
Proof.
  revert d. induction l as [|a l IH]; intros d; simpl.
  - ring.
  - rewrite IH, Qsum_add_to. ring.
Qed.

End PyFacts.

(** ** Sorted lists *)

Section SortedFacts.
Context {A : Type} (R : A -> A -> Prop).

Lemma sorted_app (l1 l2 : list A) :
  StronglySorted R (l1 ++ l2) <->
  StronglySorted R l1 /\ StronglySorted R l2 /\
  (forall a b, In a l1 -> In b l2 -> R a b).
Proof.
  induction l1 as [|a l1 IH]; simpl.
  - split.
    + intros H. repeat split; trivial; try constructor. intros ? ? [].
    + intros (_ & H & _). exact H.
  - split.
    + intros H. inversion H as [|? ? Hs Hall]; subst.
      apply IH in Hs. destruct Hs as (H1 & H2 & H12).
      rewrite Forall_app in Hall. destruct Hall as [Ha1 Ha2].
      repeat split; trivial.
      * constructor; trivial.
      * intros a' b [<-|Hin] Hb.
        -- rewrite Forall_forall in Ha2. auto.
        -- auto.
    + intros (H1 & H2 & H12).
      inversion H1 as [|? ? Hs Hall]; subst.
      constructor.
      * apply IH. repeat split; auto.
      * rewrite Forall_app. split; trivial.
        rewrite Forall_forall. intros b Hb. apply H12; auto.
Qed.

Lemma sorted_firstn (n : nat) (l : list A) :
  StronglySorted R l -> StronglySorted R (firstn n l).
Proof.
  intros H. rewrite <- (firstn_skipn n l) in H.
  apply sorted_app in H. tauto.
Qed.

Lemma sorted_skipn (n : nat) (l : list A) :
  StronglySorted R l -> StronglySorted R (skipn n l).
Proof.
  intros H. rewrite <- (firstn_skipn n l) in H.
  apply sorted_app in H. tauto.
Qed.

Lemma sorted_filter (f : A -> bool) (l : list A) :
  StronglySorted R l -> StronglySorted R (filter f l).
Proof.
  induction 1 as [|a l Hs IH Hall]; simpl.
  - constructor.
  - destruct (f a); trivial.
    constructor; trivial.
    rewrite Forall_forall in *. intros b Hb.
    apply filter_In in Hb. apply Hall, Hb.
Qed.

End SortedFacts.

Lemma sorted_rev {A} (R : A -> A -> Prop) (l : list A) :
  StronglySorted R l -> StronglySorted (fun a b => R b a) (rev l).
Proof.
  induction 1 as [|a l Hs IH Hall]; simpl.
  - constructor.
  - apply sorted_app. repeat split; trivial.
    + repeat constructor.
    + intros b c Hb [<-|[]].
      rewrite Forall_forall in Hall. apply Hall.
      apply in_rev. exact Hb.
Qed.

Lemma sorted_map {A B} (R : B -> B -> Prop) (f : A -> B) (l : list A) :
  StronglySorted (fun a b => R (f a) (f b)) l -> StronglySorted R (map f l).
Proof.
  induction 1 as [|a l Hs IH Hall]; simpl; constructor; trivial.
  rewrite Forall_forall in *. intros b Hb.
  apply in_map_iff in Hb. destruct Hb as (a' & <- & Ha'). auto.
Qed.

Section SortFacts.
Import Py Holdings.
Context {A : Type} (key : A -> Q).

Lemma insert_desc_perm (a : A) (l : list A) :
  Permutation (insert_desc key a l) (a :: l).
Proof.
  induction l as [|b l IH]; simpl.
  - reflexivity.
  - destruct (Qle_bool (key b) (key a)).
    + reflexivity.
    + rewrite IH. apply perm_swap.
Qed.

Lemma sort_desc_perm (l : list A) : Permutation (sort_desc key l) l.
Proof.
  induction l as [|a l IH]; simpl.
  - reflexivity.
  - rewrite insert_desc_perm. apply perm_skip, IH.
Qed.

Lemma insert_desc_sorted (a : A) (l : list A) :
  StronglySorted (fun u v => key v <= key u) l ->
  StronglySorted (fun u v => key v <= key u) (insert_desc key a l).
Proof.
  induction 1 as [|b l Hs IH Hall]; simpl.
  - repeat constructor.
  - destruct (Qle_bool (key b) (key a)) eqn:E.
    + apply Qle_bool_iff in E.
      constructor; [constructor; trivial|].
      constructor; trivial.
      rewrite Forall_forall in *. intros c Hc.
      apply Qle_trans with (key b); auto.
    + constructor; trivial.
      rewrite Forall_forall in *. intros c Hc.
      apply (Permutation_in _ (insert_desc_perm a l)) in Hc.
      destruct Hc as [<-|Hc]; auto.
      apply Qlt_le_weak, Qnot_le_lt. intros Hle.
      apply Qle_bool_iff in Hle. congruence.
Qed.

Lemma sort_desc_sorted (l : list A) :
  StronglySorted (fun u v => key v <= key u) (sort_desc key l).
Proof.
  induction l as [|a l IH]; simpl.
  - constructor.
  - apply insert_desc_sorted, IH.
Qed.

Lemma sort_desc_In (a : A) (l : list A) : In a (sort_desc key l) <-> In a l.
Proof.
  split; apply Permutation_in;
    [apply sort_desc_perm | symmetry; apply sort_desc_perm].
Qed.

Lemma sort_desc_length (l : list A) :
  List.length (sort_desc key l) = List.length l.
Proof. apply Permutation_length, sort_desc_perm. Qed.

End SortFacts.

Lemma sorted_weaken {A} (R R' : A -> A -> Prop) (l : list A) :
  (forall a b, R a b -> R' a b) -> StronglySorted R l -> StronglySorted R' l.
Proof.
  intros HR. induction 1 as [|a l Hs IH Hall]; constructor; trivial.
  revert Hall. apply Forall_impl. auto.
Qed.

(** ** The holdings calculator *)

Section HoldingsFacts.
Import Py Holdings.
Variable current_prices : dict Q.
Variables sector_map class_map : dict string.

Local Abbreviation step := (performance_step current_prices sector_map class_map).
Local Abbreviation entry := (stock_of current_prices sector_map class_map).
Local Abbreviation keep := (included current_prices).
Local Abbreviation calculate :=
  (calculate_holdings_performance current_prices sector_map class_map).

Lemma included_iff (h : holding) :
  keep h = true <-> 0 < price_of current_prices h /\ 0 < entry_price h.
Proof.
  unfold included. rewrite andb_true_iff, !Qlt_bool_iff. reflexivity.
Qed.

Lemma performance_step_eq (pd : list stock) (ti tc : Q) (h : holding) :
  step (pd, ti, tc) h =
  Ok (if keep h
      then (pd ++ [entry h], ti + invested_of h,
            tc + value_of current_prices h)
      else (pd, ti, tc)).
Proof.
  unfold performance_step, included, price_of.
  destruct (Qlt_bool 0 (get_default current_prices (ticker h) 0)
            && Qlt_bool 0 (entry_price h)); trivial.
  unfold stock_of, value_of, invested_of, price_of.
  destruct (Qlt_bool 0 (entry_price h * quantity h)) eqn:E; trivial.
  apply Qlt_bool_iff in E. rewrite (truediv_pos _ _ E). reflexivity.
Qed.

Lemma performance_loop (hs : list holding) (pd : list stock) (ti tc : Q) :
  foldM step hs (pd, ti, tc) =
  Ok (pd ++ map entry (filter keep hs),
      fold_left (fun acc h => acc + invested_of h) (filter keep hs) ti,
      fold_left (fun acc h => acc + value_of current_prices h)
        (filter keep hs) tc).
Proof.
  revert pd ti tc. induction hs as [|h hs IH]; intros pd ti tc.
  - simpl. rewrite app_nil_r. reflexivity.
  - cbn [foldM filter]. rewrite performance_step_eq. cbn [bind].
    destruct (keep h); rewrite IH; trivial.
    cbn [map fold_left]. rewrite <- app_assoc. reflexivity.
Qed.

Lemma exposure_loop (total : Q) (l : list stock) (se ce : dict Q) :
  0 < total ->
  foldM (exposure_step total) l (se, ce) =
  Ok (fold_left (fun d s => add_to d (sector s) (current_value s / total))
        l se,
      fold_left
        (fun d s => add_to d (asset_class s) (current_value s / total))
        l ce).
Proof.
  intros Hpos. revert se ce. induction l as [|s l IH]; intros se ce.
  - reflexivity.
  - cbn [foldM fold_left]. unfold exposure_step at 1.
    rewrite (proj2 (Qlt_bool_iff 0 total) Hpos).
    rewrite (truediv_pos _ _ Hpos). cbn [bind]. apply IH.
Qed.

Lemma exposure_loop_idle (total : Q) (l : list stock) (se ce : dict Q) :
  Qlt_bool 0 total = false ->
  foldM (exposure_step total) l (se, ce) = Ok (se, ce).
Proof.
  intros Hz. induction l as [|s l IH]; trivial.
  cbn [foldM]. unfold exposure_step at 1. rewrite Hz. cbn [bind]. exact IH.
Qed.

(** The calculator never raises, and what it returns is written from
    the holdings that pass the guard. *)
Lemma calculate_closed_form (hs : list holding) :
  calculate hs =
  Ok (analytics_of current_prices sector_map class_map (filter keep hs)).
Proof.
  unfold calculate_holdings_performance.
  rewrite performance_loop. cbn [bind app].
  unfold analytics_of.
  set (kept := filter keep hs).
  set (ti := fold_left (fun acc h => acc + invested_of h) kept 0).
  set (tc := fold_left (fun acc h => acc + value_of current_prices h) kept 0).
  set (pd := sort_desc gain_loss_pct (map entry kept)).
  assert (Hret :
    (if Qlt_bool 0 ti
     then q <- truediv (tc - ti) ti ;; Ok (q * 100)
     else Ok 0)
    = Ok (if Qlt_bool 0 ti then (tc - ti) / ti * 100 else 0)).
  { destruct (Qlt_bool 0 ti) eqn:E; trivial.
    apply Qlt_bool_iff in E. rewrite (truediv_pos _ _ E). reflexivity. }
  rewrite Hret. cbn [bind].
  unfold exposure_of.
  destruct (Qlt_bool 0 tc) eqn:E.
  - apply Qlt_bool_iff in E. rewrite (exposure_loop _ _ _ _ E).
    reflexivity.
  - rewrite (exposure_loop_idle _ _ _ _ E). reflexivity.
Qed.

Lemma filter_keep_twice (hs : list holding) :
  filter keep (filter keep hs) = filter keep hs.
Proof.
  induction hs as [|h hs IH]; simpl; trivial.
  destruct (keep h) eqn:E; simpl; rewrite ?E, IH; reflexivity.
Qed.

(** C2: a holding enters the breakdown and the totals exactly when its
    current price and its entry price are both positive; the others
    change nothing in the result, and the call never raises. *)
Theorem C2_holding_included_iff_guard (hs : list holding) :
  exists a : analytics,
    calculate hs = Ok a /\
    portfolio_data a =
      sort_desc gain_loss_pct (map entry (filter keep hs)) /\
    (forall s, In s (portfolio_data a) <->
               exists h, In h hs /\
                         0 < price_of current_prices h /\
                         0 < entry_price h /\
                         s = entry h) /\
    List.length (portfolio_data a) = List.length (filter keep hs) /\
    total_invested a == Qsum (map invested_of (filter keep hs)) /\
    total_current_value a
      == Qsum (map (value_of current_prices) (filter keep hs)) /\
    calculate (filter keep hs) = Ok a.
Proof.
  eexists. split; [apply calculate_closed_form|].
  cbn [analytics_of portfolio_data total_invested total_current_value].
  split; [reflexivity|]. split; [|split; [|split; [|split]]].
  - intros s. rewrite sort_desc_In, in_map_iff. split.
    + intros (h & <- & Hin). apply filter_In in Hin.
      destruct Hin as [Hin Hk]. apply included_iff in Hk.
      exists h. tauto.
    + intros (h & Hin & Hp & He & ->). exists h. split; trivial.
      apply filter_In. split; trivial. apply included_iff. tauto.
  - rewrite sort_desc_length. apply length_map.
  - rewrite fold_left_Qsum. ring.
  - rewrite fold_left_Qsum. ring.
  - rewrite calculate_closed_form, filter_keep_twice. reflexivity.
Qed.

Lemma kept_value_sum (kept : list holding) :
  Qsum (map current_value (sort_desc gain_loss_pct (map entry kept)))
  == fold_left (fun acc h => acc + value_of current_prices h) kept 0.
Proof.
  rewrite (Qsum_perm _ (map current_value (map entry kept))).
  - rewrite map_map. cbn [stock_of current_value].
    rewrite fold_left_Qsum, Qplus_0_l. reflexivity.
  - apply Permutation_map, sort_desc_perm.
Qed.

Lemma exposure_sums_to_one (key : stock -> string) (kept : list holding) :
  let total :=
    fold_left (fun acc h => acc + value_of current_prices h) kept 0 in
  0 < total ->
  Qsum (values (exposure_of total key
                  (sort_desc gain_loss_pct (map entry kept)))) == 1.
Proof.
  intros total Hpos. unfold exposure_of.
  rewrite (proj2 (Qlt_bool_iff 0 total) Hpos).
  rewrite Qsum_accumulate, Qsum_scaled, kept_value_sum.
  fold total. simpl. field. intros E. rewrite E in Hpos.
  apply (Qlt_irrefl 0 Hpos).
Qed.

(** C3: with a positive total value and at least one entry, every
    entry adds its share [current_value / total_current_value] under
    its sector in one map and under its asset class in the other, and
    the values of each map sum to 1. *)
Theorem C3_exposure_maps_sum_to_one (hs : list holding) (a : analytics) :
  calculate hs = Ok a ->
  0 < total_current_value a ->
  portfolio_data a <> [] ->
  sector_exposure a =
    fold_left
      (fun d s => add_to d (sector s)
                    (current_value s / total_current_value a))
      (portfolio_data a) [] /\
  asset_allocation a =
    fold_left
      (fun d s => add_to d (asset_class s)
                    (current_value s / total_current_value a))
      (portfolio_data a) [] /\
  Qsum (values (sector_exposure a)) == 1 /\
  Qsum (values (asset_allocation a)) == 1.
Proof.
  rewrite calculate_closed_form. intros Ha Hpos _.
  injection Ha as <-.
  cbn [analytics_of portfolio_data total_current_value sector_exposure
       asset_allocation] in *.
  repeat split.
  - unfold exposure_of. rewrite (proj2 (Qlt_bool_iff _ _) Hpos). reflexivity.
  - unfold exposure_of. rewrite (proj2 (Qlt_bool_iff _ _) Hpos). reflexivity.
  - apply exposure_sums_to_one, Hpos.
  - apply exposure_sums_to_one, Hpos.
Qed.

Lemma ratio_entry_le (u v : stock) :
  gain_loss_pct v <= gain_loss_pct u ->
  snd (ratio_entry v) <= snd (ratio_entry u).
Proof.
  intros H. cbn [ratio_entry snd]. unfold Qdiv.
  apply Qmult_le_compat_r; trivial. discriminate.
Qed.

Lemma ratio_entry_pos (s : stock) :
  0 < gain_loss_pct s -> 0 < snd (ratio_entry s).
Proof.
  intros H. cbn [ratio_entry snd]. unfold Qdiv.
  apply Qmult_lt_0_compat; trivial. reflexivity.
Qed.

Lemma ratio_entry_neg (s : stock) :
  gain_loss_pct s < 0 -> snd (ratio_entry s) < 0.
Proof.
  intros H. cbn [ratio_entry snd].
  setoid_replace (gain_loss_pct s / 100)
    with (- ((- gain_loss_pct s) * / 100)) by (unfold Qdiv; ring).
  assert (0 < (- gain_loss_pct s) * / 100).
  { apply Qmult_lt_0_compat; [lra | reflexivity]. }
  lra.
Qed.

(** C4: the entries are sorted by [gain_loss_pct], largest first;
    the gainers are the positive ones among the first five, as
    ratios, largest first; the losers are the negative ones among the
    last five, as ratios, reversed so that the worst comes first;
    neither list has more than five pairs. *)
Theorem C4_top_gainers_and_losers (hs : list holding) :
  exists a : analytics,
    calculate hs = Ok a /\
    Permutation (portfolio_data a) (map entry (filter keep hs)) /\
    StronglySorted (fun u v => gain_loss_pct v <= gain_loss_pct u)
      (portfolio_data a) /\
    top_gainers a =
      map (fun s => (stock_ticker s, gain_loss_pct s / 100))
        (filter (fun s => Qlt_bool 0 (gain_loss_pct s))
           (firstn 5 (portfolio_data a))) /\
    top_losers a =
      rev (map (fun s => (stock_ticker s, gain_loss_pct s / 100))
             (filter (fun s => Qlt_bool (gain_loss_pct s) 0)
                (skipn (List.length (portfolio_data a) - 5)
                   (portfolio_data a)))) /\
    (List.length (top_gainers a) <= 5)%nat /\
    (List.length (top_losers a) <= 5)%nat /\
    Forall (fun p => 0 < snd p) (top_gainers a) /\
    Forall (fun p => snd p < 0) (top_losers a) /\
    descending (top_gainers a) /\
    ascending (top_losers a).
Proof.
  eexists. split; [apply calculate_closed_form|].
  cbn [analytics_of portfolio_data top_gainers top_losers].
  set (pd := sort_desc gain_loss_pct (map entry (filter keep hs))).
  assert (Hsorted :
    StronglySorted (fun u v => gain_loss_pct v <= gain_loss_pct u) pd)
    by apply sort_desc_sorted.
  assert (Hratio :
    forall l,
      StronglySorted (fun u v => gain_loss_pct v <= gain_loss_pct u) l ->
      StronglySorted (fun p q => snd q <= snd p) (map ratio_entry l)).
  { intros l Hl. apply sorted_map. revert Hl. apply sorted_weaken.
    intros u v. apply ratio_entry_le. }
  split; [apply sort_desc_perm|]. split; [exact Hsorted|].
  split; [reflexivity|]. split; [reflexivity|].
  split; [|split; [|split; [|split; [|split]]]].
  - rewrite length_map.
    etransitivity; [apply filter_length_le|]. apply firstn_le_length.
  - rewrite length_rev, length_map.
    etransitivity; [apply filter_length_le|].
    unfold take_last. rewrite length_skipn. lia.
  - rewrite Forall_forall. intros p Hp.
    apply in_map_iff in Hp. destruct Hp as (s & <- & Hs).
    apply filter_In in Hs. apply ratio_entry_pos, Qlt_bool_iff, Hs.
  - rewrite Forall_forall. intros p Hp.
    apply in_rev, in_map_iff in Hp. destruct Hp as (s & <- & Hs).
    apply filter_In in Hs. apply ratio_entry_neg, Qlt_bool_iff, Hs.
  - apply Hratio, sorted_filter, sorted_firstn, Hsorted.
  - unfold ascending.
    apply (sorted_rev (fun p q : string * Q => snd q <= snd p)).
    apply Hratio, sorted_filter, sorted_skipn, Hsorted.
Qed.

End HoldingsFacts.

(** The example of the design: A at +10%, B at -10%, nothing gained. *)
Example holdings_example :
  exists a,
    Holdings.calculate_holdings_performance Holdings.example_prices [] []
      Holdings.example_holdings = Py.Ok a /\
    Holdings.total_invested a == 2000 /\
    Holdings.total_current_value a == 2000 /\
    Holdings.total_gain_loss a == 0 /\
    Holdings.total_return_pct a == 0 /\
    map fst (Holdings.top_gainers a) = ["A"%string] /\
    map fst (Holdings.top_losers a) = ["B"%string] /\
    Py.Qsum (map snd (Holdings.top_gainers a)) == 1 # 10 /\
    Py.Qsum (map snd (Holdings.top_losers a)) == - (1 # 10).
Proof. eexists. repeat split; vm_compute; reflexivity. Qed.

Lemma C3_exposure_maps_sum_to_one_witness :
  exists a,
    Holdings.calculate_holdings_performance Holdings.example_prices [] []
      Holdings.example_holdings = Py.Ok a /\
    Py.Qsum (Py.values (Holdings.sector_exposure a)) == 1.
Proof.
  eexists. split; [vm_compute; reflexivity|].
  eapply (C3_exposure_maps_sum_to_one Holdings.example_prices [] []
            Holdings.example_holdings).
  - vm_compute. reflexivity.
  - reflexivity.
  - discriminate.
Defined.

(** ** Returns statistics *)

Section StatsFacts.
Import Py Optimizer.
Variable np_sqrt : Q -> Q.

(** [portfolio_stats] never raises: the only division is behind the
    test on its divisor. *)
Lemma portfolio_stats_total (weights : list Q) (returns_df : frame) (rf : Q) :
  let port_return := dot weights (mean returns_df) * 252 in
  let port_vol :=
    np_sqrt (dot weights (matvec (cov returns_df) weights)) * np_sqrt 252 in
  portfolio_stats np_sqrt weights returns_df rf =
  Ok (port_return, port_vol,
      if Qlt_bool 0 port_vol then (port_return - rf) / port_vol else 0).
Proof.
  intros port_return port_vol. unfold portfolio_stats.
  fold port_return port_vol.
  destruct (Qlt_bool 0 port_vol) eqn:E; trivial.
  apply Qlt_bool_iff in E. rewrite (truediv_pos _ _ E). reflexivity.
Qed.

(** C5: the annualised return is [(w . mean) * 252], the annualised
    volatility is [sqrt (w' Sigma w) * sqrt 252], the Sharpe ratio is
    their quotient after the risk-free rate when the volatility is
    positive and 0 when it is zero; no input makes the call raise. *)
Theorem C5_portfolio_stats_no_division_by_zero
  (weights : list Q) (returns_df : frame) (rf : Q) :
  exists port_return port_vol sharpe : Q,
    portfolio_stats np_sqrt weights returns_df rf =
      Ok (port_return, port_vol, sharpe) /\
    port_return = dot weights (mean returns_df) * 252 /\
    port_vol =
      np_sqrt (dot weights (matvec (cov returns_df) weights))
      * np_sqrt 252 /\
    (0 < port_vol -> sharpe = (port_return - rf) / port_vol) /\
    (port_vol == 0 -> sharpe = 0) /\
    (~ 0 < port_vol -> sharpe = 0).
Proof.
  do 3 eexists. split; [apply portfolio_stats_total|].
  split; [reflexivity|]. split; [reflexivity|].
  set (pv := np_sqrt _ * np_sqrt 252).
  repeat split.
  - intros H. apply Qlt_bool_iff in H. rewrite H. reflexivity.
  - intros H. destruct (Qlt_bool 0 pv) eqn:E; trivial.
    apply Qlt_bool_iff in E. rewrite H in E. destruct (Qlt_irrefl 0 E).
  - intros H. destruct (Qlt_bool 0 pv) eqn:E; trivial.
    apply Qlt_bool_iff in E. contradiction.
Qed.

End StatsFacts.

(** ** Drawdown *)

Section DrawdownFacts.
Import Py Optimizer.

Lemma scan_length (f : Q -> Q -> Q) (l : list Q) (acc : Q) :
  length (scan f acc l) = length l.
Proof.
  revert acc. induction l as [|a l IH]; intros acc; simpl; auto.
Qed.

(** Each value of a scan is made from the one before it. *)
Lemma scan_step (f : Q -> Q -> Q) (l : list Q) (acc : Q) (t : nat) :
  (t < length l)%nat ->
  nth (S t) (acc :: scan f acc l) 0 =
  f (nth t (acc :: scan f acc l) 0) (nth t l 0).
Proof.
  revert acc t. induction l as [|a l IH]; intros acc t Ht; simpl in Ht.
  - lia.
  - destruct t as [|t]; [reflexivity|].
    change (nth (S t) (f acc a :: scan f (f acc a) l) 0 =
            f (nth t (f acc a :: scan f (f acc a) l) 0) (nth t l 0)).
    apply IH. lia.
Qed.

Lemma cumprod_length (l : list Q) : length (cumprod l) = length l.
Proof. destruct l; simpl; [|rewrite scan_length]; reflexivity. Qed.

Lemma cummax_length (l : list Q) : length (cummax l) = length l.
Proof. destruct l; simpl; [|rewrite scan_length]; reflexivity. Qed.

Lemma cumprod_step (l : list Q) (t : nat) :
  (S t < length l)%nat ->
  nth (S t) (cumprod l) 0 = nth t (cumprod l) 0 * nth (S t) l 0.
Proof.
  destruct l as [|a l]; simpl; intros Ht; [lia|].
  apply (scan_step Qmult). lia.
Qed.

Lemma cummax_step (l : list Q) (t : nat) :
  (S t < length l)%nat ->
  nth (S t) (cummax l) 0 = Qmax (nth t (cummax l) 0) (nth (S t) l 0).
Proof.
  destruct l as [|a l]; simpl; intros Ht; [lia|].
  apply (scan_step Qmax). lia.
Qed.

Lemma product_firstn_step (l : list Q) (t : nat) :
  (t < length l)%nat ->
  fold_right Qmult 1 (firstn (S t) l)
  == fold_right Qmult 1 (firstn t l) * nth t l 0.
Proof.
  revert t. induction l as [|a l IH]; intros t Ht; simpl in Ht; [lia|].
  destruct t as [|t].
  - simpl. ring.
  - change (a * fold_right Qmult 1 (firstn (S t) l)
            == a * fold_right Qmult 1 (firstn t l) * nth t l 0).
    rewrite IH by lia. ring.
Qed.

Lemma spec_cum_gross (r : list Q) (t : nat) :
  spec_cum r t = fold_right Qmult 1 (firstn (S t) (gross r)).
Proof. unfold spec_cum, gross. rewrite firstn_map. reflexivity. Qed.

(** The scanned product is the product of the prefix. *)
Lemma cumprod_agrees (r : list Q) (t : nat) :
  (t < length r)%nat ->
  nth t (cumprod (gross r)) 0 == spec_cum r t.
Proof.
  assert (Hlen : length (gross r) = length r) by apply length_map.
  induction t as [|t IH]; intros Ht; rewrite spec_cum_gross.
  - destruct r as [|a r]; simpl in *; [lia|]. ring.
  - rewrite cumprod_step by lia.
    rewrite IH by lia.
    rewrite spec_cum_gross.
    rewrite (product_firstn_step (gross r) (S t)) by lia.
    reflexivity.
Qed.

(** The scanned maximum is the maximum of the prefix. *)
Lemma cummax_agrees (r : list Q) (t : nat) :
  (t < length r)%nat ->
  nth t (cummax (cumprod (gross r))) 0 == spec_running_max r t.
Proof.
  assert (Hlen : length (cumprod (gross r)) = length r).
  { rewrite cumprod_length. apply length_map. }
  induction t as [|t IH]; intros Ht.
  - cbn [spec_running_max]. rewrite <- cumprod_agrees by trivial.
    destruct (cumprod (gross r)); simpl in *; [lia|reflexivity].
  - rewrite cummax_step by lia. cbn [spec_running_max].
    apply Q.max_compat; [apply IH; lia|apply cumprod_agrees; trivial].
Qed.

Lemma drawdowns_length (c : list Q) : length (drawdowns c) = length c.
Proof.
  unfold drawdowns. rewrite length_map, length_combine, cummax_length.
  apply Nat.min_id.
Qed.

Lemma drawdowns_nth (c : list Q) (t : nat) :
  nth t (drawdowns c) None =
  np_div (nth t c 0 - nth t (cummax c) 0) (nth t (cummax c) 0).
Proof.
  unfold drawdowns.
  change (@None Q)
    with ((fun p : Q * Q => np_div (fst p - snd p) (snd p)) (0, 0)).
  rewrite map_nth, combine_nth by (symmetry; apply cummax_length).
  reflexivity.
Qed.

Lemma np_div_some (a b v : Q) :
  np_div a b = Some v <-> ~ b == 0 /\ v = a / b.
Proof.
  unfold np_div. destruct (Qeq_bool b 0) eqn:E.
  - apply Qeq_bool_iff in E. split; [discriminate|tauto].
  - split.
    + intros [= <-]. split; trivial. intros Hb.
      apply Qeq_bool_iff in Hb. congruence.
    + intros [_ ->]. reflexivity.
Qed.

Lemma nanmin_some (l : list (option Q)) (m : Q) :
  nanmin l = Some m ->
  (exists t v, nth t l None = Some v /\ m == v) /\
  (forall t v, nth t l None = Some v -> m <= v).
Proof.
  revert m. induction l as [|[a|] l IH]; intros m; simpl.
  - discriminate.
  - destruct (nanmin l) as [m'|] eqn:E.
    + intros [= <-]. destruct (IH m' eq_refl) as [(t & v & Hv & Hm) Hle].
      split.
      * destruct (Q.min_dec a m') as [H|H].
        -- exists O, a. split; trivial.
        -- exists (S t), v. split; trivial. rewrite H. exact Hm.
      * intros [|k] v'; simpl.
        -- intros [= <-]. apply Q.le_min_l.
        -- intros Hk. apply Qle_trans with m'; [apply Q.le_min_r|].
           apply (Hle k v' Hk).
    + intros [= <-]. split.
      * exists O, a. split; [reflexivity|reflexivity].
      * intros [|k] v'; simpl.
        -- intros [= <-]. apply Qle_refl.
        -- intros Hk. exfalso. clear IH.
           revert k Hk. induction l as [|[b|] l IHl]; intros k Hk.
           ++ destruct k; discriminate.
           ++ simpl in E. destruct (nanmin l); discriminate.
           ++ simpl in E. destruct k; [discriminate|].
              apply (IHl E k Hk).
  - intros Hm. destruct (IH m Hm) as [(t & v & Hv & Hmv) Hle].
    split.
    + exists (S t), v. split; trivial.
    + intros [|k] v'; simpl; [discriminate|]. apply Hle.
Qed.

Lemma nth_some_in_range {A} (l : list (option A)) (t : nat) (v : A) :
  nth t l None = Some v -> (t < length l)%nat.
Proof.
  intros H. destruct (Nat.lt_ge_cases t (length l)) as [Hlt|Hge]; trivial.
  rewrite nth_overflow in H by trivial. discriminate.
Qed.

(** Once the first cumulative value is zero, every running maximum
    is. *)
Lemma zero_start_stays_zero (r : list Q) (t : nat) :
  (t < length r)%nat -> spec_cum r O == 0 ->
  spec_cum r t == 0 /\ spec_running_max r t == 0.
Proof.
  intros Ht H0. induction t as [|t IH].
  - split; trivial.
  - destruct IH as [IHc IHm]; [lia|].
    assert (Hc : spec_cum r (S t) == 0).
    { rewrite spec_cum_gross, product_firstn_step
        by (unfold gross; rewrite length_map; lia).
      rewrite <- spec_cum_gross, IHc. ring. }
    split; trivial.
    cbn [spec_running_max]. rewrite IHm, Hc. apply Q.max_id.
Qed.

Lemma min_drawdown_nonpositive (r : list Q) (m : Q) :
  is_min_drawdown r m -> m <= 0.
Proof.
  intros [(t & Ht & Hnz & _) Hle].
  assert (H0 : ~ spec_cum r O == 0).
  { intros H0. apply Hnz. apply (zero_start_stays_zero r t Ht H0). }
  assert (Hpos : (0 < length r)%nat) by lia.
  specialize (Hle O Hpos H0).
  unfold spec_drawdown in Hle. cbn [spec_running_max] in Hle.
  setoid_replace ((spec_cum r 0 - spec_cum r 0) / spec_cum r 0) with 0
    in Hle by (unfold Qdiv; ring).
  exact Hle.
Qed.

Lemma drawdown_agrees (r : list Q) (t : nat) :
  (t < length r)%nat ->
  let c := cumprod (gross r) in
  (nth t c 0 - nth t (cummax c) 0) / nth t (cummax c) 0
  == spec_drawdown r t.
Proof.
  intros Ht c. unfold spec_drawdown, c.
  rewrite (cumprod_agrees r t Ht), (cummax_agrees r t Ht). reflexivity.
Qed.

Lemma max_drawdown_is_min (r : list Q) (m : Q) :
  max_drawdown (cumprod (gross r)) = Some m -> is_min_drawdown r m.
Proof.
  intros H. unfold max_drawdown in H.
  assert (Hlen : length (drawdowns (cumprod (gross r))) = length r).
  { unfold gross. rewrite drawdowns_length, cumprod_length. apply length_map. }
  destruct (nanmin_some _ _ H) as [(t & v & Hv & Hm) Hle]. split.
  - exists t.
    assert (Ht : (t < length r)%nat).
    { rewrite <- Hlen. apply (nth_some_in_range _ _ _ Hv). }
    rewrite drawdowns_nth in Hv. apply np_div_some in Hv.
    destruct Hv as [Hnz ->].
    split; trivial. split.
    + rewrite <- (cummax_agrees r t Ht). exact Hnz.
    + rewrite Hm. apply (drawdown_agrees r t Ht).
  - intros k Hk Hnz.
    rewrite <- (drawdown_agrees r k Hk).
    apply (Hle k). rewrite drawdowns_nth. apply np_div_some. split; trivial.
    rewrite (cummax_agrees r k Hk). exact Hnz.
Qed.

Lemma max_drawdown_defined (r : list Q) :
  r <> [] -> ~ 1 + hd 0 r == 0 ->
  exists m, max_drawdown (cumprod (gross r)) = Some m.
Proof.
  destruct r as [|a r]; [congruence|]. intros _ Hnz. cbn [hd] in Hnz.
  unfold max_drawdown, drawdowns. cbn [gross map cumprod cummax combine fst snd].
  unfold np_div at 1.
  destruct (Qeq_bool (1 + a) 0) eqn:E.
  - apply Qeq_bool_iff in E. contradiction.
  - cbn [nanmin]. match goal with |- context [nanmin ?l] =>
      destruct (nanmin l) end; eexists; reflexivity.
Qed.

(** A peak of 1.2 followed by a trough of 0.9: a drawdown of a
    quarter. *)
Example drawdown_example :
  exists m,
    max_drawdown (cumprod (gross [1 # 5; - (1 # 4); 1 # 10])) = Some m /\
    m == - (1 # 4).
Proof. eexists. split; vm_compute; reflexivity. Qed.

(** C7: the objective is the absolute value of [max_drawdown] on the
    cumulative product of [1 + r]; that cumulative product and its
    running maximum are the ones of the design; [max_drawdown] is the
    least value of [(C_t - M_t) / M_t], it is never positive, and it
    exists as soon as the series starts with a non-zero value. *)
Theorem C7_mdd_objective_is_abs_min_drawdown
  (returns_df : frame) (w : list Q) :
  let r := frame_dot returns_df w in
  let cum := cumprod (map (fun x => 1 + x) r) in
  mdd_objective returns_df w = Ok (option_map Qabs (max_drawdown cum)) /\
  (forall t, (t < length r)%nat ->
             nth t cum 0 == spec_cum r t /\
             nth t (cummax cum) 0 == spec_running_max r t) /\
  (forall m, max_drawdown cum = Some m ->
             is_min_drawdown r m /\ m <= 0 /\
             mdd_objective returns_df w = Ok (Some (- m))) /\
  (r <> [] -> ~ 1 + hd 0 r == 0 -> exists m, max_drawdown cum = Some m).
Proof.
  intros r cum. split; [reflexivity|]. split; [|split].
  - intros t Ht. split; [apply cumprod_agrees|apply cummax_agrees]; trivial.
  - intros m Hm.
    assert (Hmin : is_min_drawdown r m) by (apply max_drawdown_is_min, Hm).
    assert (Hle : m <= 0) by (apply (min_drawdown_nonpositive r), Hmin).
    repeat split; try apply Hmin; trivial.
    unfold mdd_objective. fold r. fold cum. rewrite Hm. cbn [option_map].
    do 2 f_equal. unfold Qabs. destruct m as [[|p|p] d]; trivial.
    exfalso. apply (Qlt_not_le _ _ (eq_refl : 0 < Z.pos p # d) Hle).
  - apply max_drawdown_defined.
Qed.

End DrawdownFacts.

(** ** The weight optimiser *)

Section DictFacts.
Import Py.
Context {V : Type}.

Lemma set_fresh (d : dict V) (k : string) (v : V) :
  ~ In k (keys d) -> set d k v = d ++ [(k, v)].
Proof.
  unfold keys. induction d as [|[k' v'] d IH]; simpl; intros Hk; trivial.
  destruct (String.eqb_spec k k') as [->|Hne].
  - tauto.
  - rewrite IH by tauto. reflexivity.
Qed.

Lemma fill_fresh (ks : list string) (vs : list V) (d : dict V) :
  NoDup (keys d ++ ks) ->
  fold_left (fun d kv => set d (fst kv) (snd kv)) (combine ks vs) d
  = d ++ combine ks vs.
Proof.
  revert vs d. induction ks as [|k ks IH]; intros vs d Hnd.
  - simpl. rewrite app_nil_r. reflexivity.
  - destruct vs as [|v vs]; [simpl; rewrite app_nil_r; reflexivity|].
    cbn [combine fold_left fst snd].
    assert (Hk : ~ In k (keys d)).
    { apply NoDup_remove_2 in Hnd. intros Hin. apply Hnd.
      apply in_or_app. auto. }
    rewrite (set_fresh d k v Hk), IH.
    + rewrite <- app_assoc. reflexivity.
    + unfold keys in *. rewrite map_app, <- app_assoc. exact Hnd.
Qed.

(** With distinct labels, [dict(zip(...))] pairs them off in order. *)
Lemma of_zip_distinct (ks : list string) (vs : list V) :
  NoDup ks -> of_zip ks vs = combine ks vs.
Proof. intros H. apply (fill_fresh ks vs []). exact H. Qed.

Lemma keys_combine (ks : list string) (vs : list V) :
  length ks = length vs -> keys (combine ks vs) = ks.
Proof.
  unfold keys. revert vs.
  induction ks as [|k ks IH]; intros [|v vs] H; simpl in *;
    try discriminate; trivial.
  f_equal. apply IH. lia.
Qed.

Lemma values_combine (ks : list string) (vs : list V) :
  length ks = length vs -> values (combine ks vs) = vs.
Proof.
  unfold values. revert vs.
  induction ks as [|k ks IH]; intros [|v vs] H; simpl in *;
    try discriminate; trivial.
  f_equal. apply IH. lia.
Qed.

End DictFacts.

Lemma Qsum_repeat (c : Q) (n : nat) :
  Py.Qsum (repeat c n) == inject_Z (Z.of_nat n) * c.
Proof.
  induction n as [|n IH].
  - simpl. ring.
  - cbn [repeat Py.Qsum fold_right]. fold (Py.Qsum (repeat c n)).
    rewrite IH, Nat2Z.inj_succ. unfold Z.succ. rewrite inject_Z_plus. ring.
Qed.

(** The equal weights are in the unit interval and sum to 1. *)
Lemma equal_weights_feasible (n : nat) :
  (1 <= n)%nat ->
  Optimizer.feasible 0 (repeat (1 / inject_Z (Z.of_nat n)) n).
Proof.
  intros Hn.
  assert (Hpos : 0 < inject_Z (Z.of_nat n)).
  { change 0 with (inject_Z 0). rewrite <- Zlt_Qlt. lia. }
  assert (Hone : 1 <= inject_Z (Z.of_nat n)).
  { change 1 with (inject_Z 1). rewrite <- Zle_Qle. lia. }
  split.
  - rewrite Forall_forall. intros w Hw. apply repeat_spec in Hw. subst w.
    split.
    + apply Qle_shift_div_l; trivial. lra.
    + apply Qle_shift_div_r; trivial. lra.
  - rewrite Qsum_repeat.
    setoid_replace (inject_Z (Z.of_nat n) * (1 / inject_Z (Z.of_nat n)) - 1)
      with 0; [discriminate|].
    field. intros E. rewrite E in Hpos. apply (Qlt_irrefl 0 Hpos).
Qed.

Section OptimizerFacts.
Import Py Optimizer.
Variable np_sqrt : Q -> Q.
Variable minimize :
  objective_fun -> list Q -> list (Q * Q) -> constraint -> OptimizeResult.

Local Abbreviation optimize :=
  (optimize_portfolio_weights np_sqrt minimize).

Local Abbreviation equal_weights n :=
  (repeat (1 / inject_Z (Z.of_nat n)) n).

Local Abbreviation unit_bounds n := (repeat (0, 1) n) (only parsing).

Local Abbreviation solve_with returns_df rf f :=
  (tbind
     (call_minimize minimize f
        (equal_weights (length (columns returns_df)))
        (unit_bounds (length (columns returns_df))) sum_to_one)
     (fun result =>
        let weights := x result in
        tbind (lift (portfolio_stats np_sqrt weights returns_df rf))
          (fun stats =>
             let '(port_return, port_vol, sharpe) := stats in
             tret (of_zip (columns returns_df) weights,
                   port_return, port_vol, sharpe)))) (only parsing).

(** The three branches of the dispatch on [objective]. *)
Lemma optimize_sharpe (returns_df : frame) (rf : Q) :
  optimize returns_df "sharpe" rf =
  solve_with returns_df rf (neg_sharpe np_sqrt returns_df rf).
Proof. reflexivity. Qed.

Lemma optimize_vol (returns_df : frame) (rf : Q) :
  optimize returns_df "vol" rf =
  solve_with returns_df rf (vol np_sqrt returns_df rf).
Proof. reflexivity. Qed.

Lemma optimize_mdd (returns_df : frame) (rf : Q) :
  optimize returns_df "mdd" rf =
  solve_with returns_df rf (mdd_objective returns_df).
Proof. reflexivity. Qed.

(** After a solve, the function returns the solver's point under the
    column labels, with the statistics at that point. *)
Lemma optimize_after_solve (returns_df : frame) (rf : Q) (f : objective_fun) :
  exists port_return port_vol sharpe,
    solve_with returns_df rf f
    = ([ {| call_fun := f;
            call_x0 := equal_weights (length (columns returns_df));
            call_bounds := unit_bounds (length (columns returns_df));
            call_constraints := sum_to_one |} ],
       Ok (of_zip (columns returns_df)
             (x (minimize f (equal_weights (length (columns returns_df)))
                   (unit_bounds (length (columns returns_df))) sum_to_one)),
           port_return, port_vol, sharpe)).
Proof.
  do 3 eexists.
  unfold call_minimize, tbind, lift, tret.
  rewrite portfolio_stats_total. reflexivity.
Qed.

(** C9: an objective other than "sharpe", "vol" and "mdd" raises
    [ValueError] with no solve started; each of the three starts
    exactly one solve, on its own objective function, from equal
    weights, within the unit bounds, under the sum-to-one
    constraint. *)
Theorem C9_unsupported_objective_raises_before_solving
  (returns_df : frame) (objective : string) (rf : Q) :
  let solve f :=
    {| call_fun := f;
       call_x0 := equal_weights (length (columns returns_df));
       call_bounds := unit_bounds (length (columns returns_df));
       call_constraints := sum_to_one |} in
  (objective <> "sharpe"%string -> objective <> "vol"%string ->
   objective <> "mdd"%string ->
   optimize returns_df objective rf =
     ([], Raise (ValueError "Unsupported objective"))) /\
  (objective = "sharpe"%string ->
   fst (optimize returns_df objective rf) =
     [solve (neg_sharpe np_sqrt returns_df rf)]) /\
  (objective = "vol"%string ->
   fst (optimize returns_df objective rf) =
     [solve (vol np_sqrt returns_df rf)]) /\
  (objective = "mdd"%string ->
   fst (optimize returns_df objective rf) =
     [solve (mdd_objective returns_df)]).
Proof.
  intros solve. repeat split.
  - intros H1 H2 H3. unfold optimize_portfolio_weights.
    apply String.eqb_neq in H1, H2, H3. rewrite H1, H2, H3. reflexivity.
  - intros ->. rewrite optimize_sharpe.
    destruct (optimize_after_solve returns_df rf
                (neg_sharpe np_sqrt returns_df rf)) as (? & ? & ? & ->).
    reflexivity.
  - intros ->. rewrite optimize_vol.
    destruct (optimize_after_solve returns_df rf
                (vol np_sqrt returns_df rf)) as (? & ? & ? & ->).
    reflexivity.
  - intros ->. rewrite optimize_mdd.
    destruct (optimize_after_solve returns_df rf
                (mdd_objective returns_df)) as (? & ? & ? & ->).
    reflexivity.
Qed.

Lemma unit_bounds_pairwise (n : nat) (w : list Q) :
  length w = n ->
  (Forall2 (fun wi b => fst b <= wi /\ wi <= snd b) w (repeat (0, 1) n) <->
   Forall (fun wi => 0 <= wi /\ wi <= 1) w).
Proof.
  revert n. induction w as [|a w IH]; intros n Hlen; subst n.
  - split; constructor.
  - cbn [length repeat]. split; intros H.
    + inversion H as [|? ? ? ? Ha Hw]; subst.
      constructor; [exact Ha|]. apply (IH (length w) eq_refl), Hw.
    + inversion H as [|? ? Ha Hw]; subst.
      constructor; [exact Ha|]. apply (IH (length w) eq_refl), Hw.
Qed.

(** C1, as the code has it: for two or more distinct tickers and each
    of the three objectives, the solve is posed from the equal weights
    (themselves in [0, 1] and summing to 1), within the bounds (0, 1)
    for every weight, under the equality constraint [sum w - 1]; the
    weights returned are the point the solver gives back, as it
    stands, paired with the tickers in their order, one per ticker
    when the point has as many coordinates as the initial guess; they
    then lie in [0, 1] and sum to 1 up to [tol] exactly when that point
    keeps the bounds and the constraint it was given up to [tol]. *)
Theorem C1_weights_are_the_solver_point_as_it_stands
  (tol : Q) (returns_df : frame) (objective : string) (rf : Q) :
  NoDup (columns returns_df) ->
  (2 <= length (columns returns_df))%nat ->
  objective = "sharpe"%string \/ objective = "vol"%string \/
  objective = "mdd"%string ->
  exists call weights port_return port_vol sharpe,
    optimize returns_df objective rf =
      ([call], Ok (weights, port_return, port_vol, sharpe)) /\
    let n := length (columns returns_df) in
    let point := x (minimize (call_fun call) (call_x0 call)
                      (call_bounds call) (call_constraints call)) in
    call_x0 call = repeat (1 / inject_Z (Z.of_nat n)) n /\
    feasible 0 (call_x0 call) /\
    call_bounds call = repeat (0, 1) n /\
    ctype (call_constraints call) = "eq"%string /\
    (forall w, cfun (call_constraints call) w = Qsum w - 1) /\
    weights = combine (columns returns_df) point /\
    (length point = length (call_x0 call) ->
     keys weights = columns returns_df /\
     values weights = point /\
     (feasible tol (values weights) <->
      satisfies tol (call_bounds call) (call_constraints call) point)).
Proof.
  intros Hnd Hn Hobj.
  assert (Hall : forall f,
    exists call weights port_return port_vol sharpe,
      solve_with returns_df rf f =
        ([call], Ok (weights, port_return, port_vol, sharpe)) /\
      let n := length (columns returns_df) in
      let point := x (minimize (call_fun call) (call_x0 call)
                        (call_bounds call) (call_constraints call)) in
      call_x0 call = repeat (1 / inject_Z (Z.of_nat n)) n /\
      feasible 0 (call_x0 call) /\
      call_bounds call = repeat (0, 1) n /\
      ctype (call_constraints call) = "eq"%string /\
      (forall w, cfun (call_constraints call) w = Qsum w - 1) /\
      weights = combine (columns returns_df) point /\
      (length point = length (call_x0 call) ->
       keys weights = columns returns_df /\
       values weights = point /\
       (feasible tol (values weights) <->
        satisfies tol (call_bounds call) (call_constraints call) point))).
  { intros f.
    destruct (optimize_after_solve returns_df rf f) as (pr & pv & sh & ->).
    do 5 eexists. split; [reflexivity|].
    cbn [call_fun call_x0 call_bounds call_constraints].
    set (n := length (columns returns_df)).
    set (point := x (minimize f (repeat (1 / inject_Z (Z.of_nat n)) n)
                       (repeat (0, 1) n) sum_to_one)).
    rewrite (of_zip_distinct _ _ Hnd).
    split; [reflexivity|].
    split; [apply equal_weights_feasible; unfold n; lia|].
    split; [reflexivity|]. split; [reflexivity|].
    split; [reflexivity|]. split; [reflexivity|].
    rewrite repeat_length. intros Hlen.
    rewrite keys_combine, values_combine by (symmetry; exact Hlen).
    split; [reflexivity|]. split; [reflexivity|].
    unfold feasible, satisfies. cbn [sum_to_one cfun].
    rewrite (unit_bounds_pairwise n point Hlen). reflexivity. }
  destruct Hobj as [ -> | [ -> | -> ] ];
    [ rewrite optimize_sharpe | rewrite optimize_vol | rewrite optimize_mdd ];
    apply Hall.
Qed.

End OptimizerFacts.

Lemma C1_weights_are_the_solver_point_as_it_stands_witness :
  exists call weights port_return port_vol sharpe,
    Optimizer.optimize_portfolio_weights Optimizer.sqrt_floor
      Optimizer.stay_put Optimizer.example_returns "sharpe" 0 =
      ([call], Py.Ok (weights, port_return, port_vol, sharpe)) /\
    weights = [("A"%string, 1 # 2); ("B"%string, 1 # 2)].
Proof.
  destruct (C1_weights_are_the_solver_point_as_it_stands Optimizer.sqrt_floor
              Optimizer.stay_put 0 Optimizer.example_returns "sharpe" 0)
    as (call & weights & pr & pv & sh & Heq & Hx0 & _ & _ & _ & _ & Hw & _).
  - repeat constructor; simpl; intuition discriminate.
  - simpl. lia.
  - left. reflexivity.
  - exists call, weights, pr, pv, sh.
    split; [exact Heq|].
    rewrite Hw. cbn [Optimizer.stay_put Optimizer.x]. rewrite Hx0.
    reflexivity.
Defined.

(** C1 as stated fails: a solve that ends off the constraint has its
    point returned as the weights, here 1, 1 and 0, which sum to 2. *)
Lemma C1_unconverged_point_is_returned :
  exists calls weights port_return port_vol sharpe,
    Optimizer.optimize_portfolio_weights Optimizer.sqrt_floor
      Optimizer.unconverged Optimizer.three_tickers "sharpe" 0 =
      (calls, Py.Ok (weights, port_return, port_vol, sharpe)) /\
    weights = [("A"%string, 1); ("B"%string, 1); ("C"%string, 0)] /\
    Py.Qsum (Py.values weights) == 2 /\
    ~ Qabs (Py.Qsum (Py.values weights) - 1) <= 1 # 2.
Proof.
  do 5 eexists. split; [vm_compute; reflexivity|].
  split; [reflexivity|]. split; [reflexivity|].
  vm_compute. intros H. apply H. reflexivity.
Qed.

(** ** The request handler: universe, screen, horizons *)

Section UniverseFacts.
Import Py Endpoint.

Lemma filter_twice {A} (f g : A -> bool) (l : list A) :
  filter g (filter f l) = filter (fun a => f a && g a) l.
Proof.
  induction l as [|a l IH]; simpl; trivial.
  destruct (f a); simpl; [destruct (g a)|]; rewrite IH; reflexivity.
Qed.

Lemma filter_all {A} (l : list A) : filter (fun _ => true) l = l.
Proof. induction l as [|a l IH]; simpl; congruence. Qed.

Lemma truthy_false {A} (l : list A) : truthy l = false <-> l = [].
Proof. destruct l; simpl; split; congruence. Qed.

Lemma isin_In (v : string) (l : list string) : isin v l = true <-> In v l.
Proof.
  unfold isin. rewrite existsb_exists. split.
  - intros (y & Hy & E). apply String.eqb_eq in E. subst. exact Hy.
  - intros H. exists v. split; trivial. apply String.eqb_refl.
Qed.

Lemma select_tickers_filtered (df : list universe_row)
  (sectors asset_classes : list string) :
  let narrowed := map Ticker (filter (matches sectors asset_classes) df) in
  select_tickers df sectors asset_classes =
  if truthy narrowed then narrowed else map Ticker df.
Proof.
  unfold select_tickers, matches.
  destruct (truthy sectors), (truthy asset_classes); cbn [negb orb andb].
  - rewrite filter_twice. reflexivity.
  - erewrite (filter_ext (fun r => isin (Sector r) sectors && true));
      [reflexivity|]. intros r. apply andb_true_r.
  - reflexivity.
  - rewrite filter_all. reflexivity.
Qed.

(** C10: when the sector and asset-class filters leave no ticker,
    the handler goes on with every ticker of the universe; when they
    leave some, it goes on with exactly those. *)
Theorem C10_empty_filter_falls_back_to_universe (df : list universe_row)
  (sectors asset_classes : list string) :
  let narrowed := map Ticker (filter (matches sectors asset_classes) df) in
  (narrowed = [] ->
   select_tickers df sectors asset_classes = map Ticker df) /\
  (narrowed <> [] ->
   select_tickers df sectors asset_classes = narrowed) /\
  (forall r,
     matches sectors asset_classes r = true <->
     (sectors = [] \/ In (Sector r) sectors) /\
     (asset_classes = [] \/ In (AssetClass r) asset_classes)).
Proof.
  intros narrowed. rewrite select_tickers_filtered. fold narrowed.
  split; [|split].
  - intros ->. reflexivity.
  - destruct narrowed; [congruence|reflexivity].
  - intros r. unfold matches.
    rewrite andb_true_iff, !orb_true_iff, !negb_true_iff,
      !truthy_false, !isin_In. reflexivity.
Qed.

End UniverseFacts.

Section ScreenFacts.
Import Py Endpoint.

Lemma In_numbered {A} (l : list A) (s j : nat) (a : A) :
  In (j, a) (combine (seq s (length l)) l) <->
  (s <= j)%nat /\ nth_error l (j - s) = Some a.
Proof.
  revert s. induction l as [|b l IH]; intros s; simpl.
  - split; [tauto|]. intros [_ H]. destruct (j - s)%nat; discriminate.
  - rewrite IH. split.
    + intros [[= <- <-]|[Hle Hnth]].
      * rewrite Nat.sub_diag. auto.
      * split; [lia|]. replace (j - s)%nat with (S (j - S s)) by lia.
        exact Hnth.
    + intros [Hle Hnth]. destruct (Nat.eq_dec j s) as [->|Hne].
      * rewrite Nat.sub_diag in Hnth. injection Hnth as <-. auto.
      * right. split; [lia|].
        replace (j - s)%nat with (S (j - S s)) in Hnth by lia.
        exact Hnth.
Qed.

Lemma In_dropna {V} (s : list (string * option V)) (t : string) (v : V) :
  In (t, v) (dropna s) <-> In (t, Some v) s.
Proof.
  induction s as [|[t' [v'|]] s IH]; simpl.
  - tauto.
  - rewrite IH. split; (intros [[= <- <-]|H]; [left|right]; trivial).
  - rewrite IH. split; [tauto|]. intros [[=]|H]; trivial.
Qed.

(** The order of the values that are ranked. *)
Lemma number_le_refl (x : number) : number_le x x.
Proof. destruct x; try reflexivity. apply Qle_bool_iff, Qle_refl. Qed.

Lemma number_le_trans (x y z : number) :
  number_le x y -> number_le y z -> number_le x z.
Proof.
  unfold number_le. destruct x, y, z; simpl; trivial; try discriminate.
  rewrite !Qle_bool_iff. apply Qle_trans.
Qed.

Lemma number_leb_total (x y : number) :
  number_leb x y = false -> number_le y x.
Proof.
  unfold number_le. destruct x, y; simpl; trivial; try discriminate.
  intros H. apply Qle_bool_iff, Qlt_le_weak, Qnot_le_lt.
  intros Hle. apply Qle_bool_iff in Hle. congruence.
Qed.

Lemma insert_return_perm (x : string * number) (l : list (string * number)) :
  Permutation (insert_return x l) (x :: l).
Proof.
  induction l as [|y l IH]; simpl.
  - reflexivity.
  - destruct (number_leb (snd y) (snd x)).
    + reflexivity.
    + rewrite IH. apply perm_swap.
Qed.

Lemma sort_values_desc_perm (s : list (string * number)) :
  Permutation (sort_values_desc s) s.
Proof.
  induction s as [|x s IH]; simpl.
  - reflexivity.
  - rewrite insert_return_perm. apply perm_skip, IH.
Qed.

Lemma insert_return_sorted (x : string * number)
  (l : list (string * number)) :
  StronglySorted (fun u v => number_le (snd v) (snd u)) l ->
  StronglySorted (fun u v => number_le (snd v) (snd u)) (insert_return x l).
Proof.
  induction 1 as [|y l Hs IH Hall]; simpl.
  - repeat constructor.
  - destruct (number_leb (snd y) (snd x)) eqn:E.
    + constructor; [constructor; trivial|].
      constructor; [exact E|].
      rewrite Forall_forall in *. intros z Hz.
      apply number_le_trans with (snd y); auto.
    + constructor; trivial.
      rewrite Forall_forall in *. intros z Hz.
      apply (Permutation_in _ (insert_return_perm x l)) in Hz.
      destruct Hz as [<-|Hz]; auto.
      apply number_leb_total, E.
Qed.

Lemma sort_values_desc_sorted (s : list (string * number)) :
  StronglySorted (fun u v => number_le (snd v) (snd u)) (sort_values_desc s).
Proof.
  induction s as [|x s IH]; simpl.
  - constructor.
  - apply insert_return_sorted, IH.
Qed.

Lemma sort_values_desc_In (x : string * number) (s : list (string * number)) :
  In x (sort_values_desc s) <-> In x s.
Proof.
  split; apply Permutation_in;
    [apply sort_values_desc_perm | symmetry; apply sort_values_desc_perm].
Qed.

(** The quotient of two prices, case by case. *)
Lemma total_return_some (first last : option Q) (v : number) :
  total_return first last = Some v <->
  exists a b,
    first = Some a /\ last = Some b /\
    ((~ a == 0 /\ v = finite (b / a - 1)) \/
     (a == 0 /\ 0 < b /\ v = pos_inf) \/
     (a == 0 /\ b < 0 /\ v = neg_inf)).
Proof.
  unfold total_return. destruct first as [a|], last as [b|];
    try (split; [discriminate|]; intros (? & ? & E1 & E2 & _);
         discriminate).
  destruct (Qeq_bool a 0) eqn:Ea.
  - apply Qeq_bool_iff in Ea. destruct (Qeq_bool b 0) eqn:Eb.
    + apply Qeq_bool_iff in Eb. split; [discriminate|].
      intros (a' & b' & E1 & E2 & H). injection E1 as <-. injection E2 as <-.
      destruct H as [[Hnz _]|[(_ & Hb & _)|(_ & Hb & _)]];
        [contradiction|rewrite Eb in Hb|rewrite Eb in Hb];
        destruct (Qlt_irrefl 0 Hb).
    + assert (Hb : ~ b == 0)
        by (intros H; apply Qeq_bool_iff in H; congruence).
      destruct (Qlt_bool 0 b) eqn:Es.
      * apply Qlt_bool_iff in Es. split.
        -- intros E. injection E as <-. exists a, b.
           split; [reflexivity|]. split; [reflexivity|].
           right. left. auto.
        -- intros (a' & b' & E1 & E2 & H).
           injection E1 as <-. injection E2 as <-.
           destruct H as [[Hnz _]|[(_ & _ & ->)|(_ & Hneg & _)]];
             [contradiction|reflexivity|].
           destruct (Qlt_irrefl 0 (Qlt_trans _ _ _ Es Hneg)).
      * assert (Hneg : b < 0).
        { apply Qnot_le_lt. intros Hle.
          destruct (Qle_lt_or_eq _ _ Hle) as [Hlt|Heq].
          - apply Qlt_bool_iff in Hlt. congruence.
          - apply Hb. symmetry. exact Heq. }
        split.
        -- intros E. injection E as <-. exists a, b.
           split; [reflexivity|]. split; [reflexivity|].
           right. right. auto.
        -- intros (a' & b' & E1 & E2 & H).
           injection E1 as <-. injection E2 as <-.
           destruct H as [[Hnz _]|[(_ & Hpos & _)|(_ & _ & ->)]];
             [contradiction| |reflexivity].
           destruct (Qlt_irrefl 0 (Qlt_trans _ _ _ Hpos Hneg)).
  - assert (Ha : ~ a == 0)
      by (intros H; apply Qeq_bool_iff in H; congruence).
    split.
    + intros E. injection E as <-. exists a, b.
      split; [reflexivity|]. split; [reflexivity|]. left. auto.
    + intros (a' & b' & E1 & E2 & H).
      injection E1 as <-. injection E2 as <-.
      destruct H as [[_ ->]|[(Hz & _)|(Hz & _)]];
        [reflexivity|contradiction|contradiction].
Qed.

(** Who is ranked, and with what return. *)
Lemma ranked_iff (p : prices) (t : string) (v : number) :
  In (t, v) (six_month_returns p) <->
  exists j a b,
    nth_error (tickers p) j = Some t /\
    cell j (hd [] (closes p)) = Some a /\
    cell j (last (closes p) []) = Some b /\
    ((~ a == 0 /\ v = finite (b / a - 1)) \/
     (a == 0 /\ 0 < b /\ v = pos_inf) \/
     (a == 0 /\ b < 0 /\ v = neg_inf)).
Proof.
  unfold six_month_returns.
  rewrite sort_values_desc_In, In_dropna. unfold row_ratio.
  rewrite in_map_iff. split.
  - intros ([j t'] & E & Hin). cbn [fst snd] in *.
    injection E as <- Hv.
    apply In_numbered in Hin. destruct Hin as [_ Hnth].
    rewrite Nat.sub_0_r in Hnth.
    apply total_return_some in Hv.
    destruct Hv as (a & b & Ha & Hb & Hv).
    exists j, a, b. auto.
  - intros (j & a & b & Hnth & Ha & Hb & Hv).
    exists (j, t). cbn [fst snd]. split.
    + f_equal. apply total_return_some. exists a, b. auto.
    + apply In_numbered. rewrite Nat.sub_0_r. split; [lia|trivial].
Qed.

Lemma filter_has {A} (f : A -> bool) (l : list A) (a : A) :
  In a l -> f a = true -> (1 <= length (filter f l))%nat.
Proof.
  intros Hin Hf.
  assert (H : In a (filter f l)) by (apply filter_In; auto).
  destruct (filter f l); [destruct H|simpl; lia].
Qed.

Lemma last_In {A} (l : list A) (d : A) : l <> [] -> In (last l d) l.
Proof.
  induction l as [|a l IH]; [congruence|]. intros _.
  destruct l as [|b l]; [left; reflexivity|].
  right. apply IH. discriminate.
Qed.

(** A price on the first and on the last of two or more dates makes
    two observations. *)
Lemma boundary_prices_two_observations (p : prices) (j : nat) (a b : Q) :
  (2 <= length (closes p))%nat ->
  cell j (hd [] (closes p)) = Some a ->
  cell j (last (closes p) []) = Some b ->
  (2 <= observations j p)%nat.
Proof.
  unfold observations. destruct (closes p) as [|r0 [|r1 rest]];
    simpl length; try lia.
  intros _ Ha Hb. cbn [hd] in Ha.
  change (last (r0 :: r1 :: rest) []) with (last (r1 :: rest) []) in Hb.
  cbn [map filter]. rewrite Ha. cbn [is_some length].
  apply le_n_S.
  apply (filter_has is_some (map (cell j) (r1 :: rest))
           (cell j (last (r1 :: rest) []))).
  - apply in_map, last_In. discriminate.
  - rewrite Hb. reflexivity.
Qed.

(** The three ways [screen] ends. *)
Lemma screen_cases (downloaded : prices) (num_stocks : Z) :
  let p := dropna_all downloaded in
  let chosen := map fst (head num_stocks (six_month_returns p)) in
  ((tickers p = [] \/ (length (closes p) < 2)%nat) /\
   screen downloaded num_stocks = inl not_enough_to_rank) \/
  (tickers p <> [] /\ (2 <= length (closes p))%nat /\
   (length chosen < 2)%nat /\
   screen downloaded num_stocks = inl fewer_than_two) \/
  (tickers p <> [] /\ (2 <= length (closes p))%nat /\
   (2 <= length chosen)%nat /\
   screen downloaded num_stocks = inr chosen).
Proof.
  intros p chosen. unfold screen. fold p. fold chosen. unfold empty.
  destruct (tickers p) as [|t ts] eqn:Et.
  - left. auto.
  - cbn [length Nat.eqb orb].
    destruct (Nat.ltb_spec (length (closes p)) 2) as [Hr|Hr].
    + left. rewrite orb_true_r. auto.
    + right.
      rewrite (proj2 (Nat.eqb_neq (length (closes p)) 0)) by lia.
      cbn [orb].
      destruct (Nat.ltb_spec (length chosen) 2) as [Hc|Hc].
      * left. repeat split; trivial. discriminate.
      * right. repeat split; trivial. discriminate.
Qed.

(** C6, as the code has it: after the dates without any price are
    removed, a ticker is ranked exactly when it has a price on the
    first and on the last remaining date and the two are not both
    zero; its return is [last / first - 1], an infinity with the sign
    of the last price when the first one is zero; every ranked ticker
    has two observations or more; the ranking is by descending return;
    the screen fails when fewer than two dates remain or fewer than two
    tickers are selected, and otherwise returns the first [num_stocks]
    of the ranking. *)
Theorem C6_screen_ranks_tickers_priced_at_both_ends
  (downloaded : prices) (num_stocks : Z) :
  let p := dropna_all downloaded in
  let ranked := six_month_returns p in
  let chosen := map fst (head num_stocks ranked) in
  (forall t v,
     In (t, v) ranked <->
     exists j a b,
       nth_error (tickers p) j = Some t /\
       cell j (hd [] (closes p)) = Some a /\
       cell j (last (closes p) []) = Some b /\
       ((~ a == 0 /\ v = finite (b / a - 1)) \/
        (a == 0 /\ 0 < b /\ v = pos_inf) \/
        (a == 0 /\ b < 0 /\ v = neg_inf))) /\
  (forall j a b,
     (2 <= length (closes p))%nat ->
     cell j (hd [] (closes p)) = Some a ->
     cell j (last (closes p) []) = Some b ->
     (2 <= observations j p)%nat) /\
  StronglySorted (fun u v => number_le (snd v) (snd u)) ranked /\
  ((exists e, screen downloaded num_stocks = inl e) <->
   tickers p = [] \/ (length (closes p) < 2)%nat \/
   (length chosen < 2)%nat) /\
  (screen downloaded num_stocks = inl not_enough_to_rank <->
   tickers p = [] \/ (length (closes p) < 2)%nat) /\
  (forall l, screen downloaded num_stocks = inr l ->
             l = chosen /\ (2 <= length l)%nat).
Proof.
  intros p ranked chosen.
  pose proof (screen_cases downloaded num_stocks) as Hcases.
  cbv zeta in Hcases. fold p in Hcases. fold ranked in Hcases.
  fold chosen in Hcases.
  split; [|split; [|split; [|split; [|split]]]].
  - intros t v. apply ranked_iff.
  - intros j a b. apply boundary_prices_two_observations.
  - apply sort_values_desc_sorted.
  - destruct Hcases as [[H ->]|[(Ht & Hr & Hc & ->)|(Ht & Hr & Hc & ->)]].
    + split; [tauto|]. intros _. eexists. reflexivity.
    + split; [auto|]. intros _. eexists. reflexivity.
    + split; [intros [e [=]]|]. intros [H|[H|H]]; [congruence|lia|lia].
  - destruct Hcases as [[H ->]|[(Ht & Hr & Hc & ->)|(Ht & Hr & Hc & ->)]].
    + tauto.
    + split; [discriminate|]. intros [H|H]; [congruence|lia].
    + split; [discriminate|]. intros [H|H]; [congruence|lia].
  - intros l.
    destruct Hcases as [[H ->]|[(Ht & Hr & Hc & ->)|(Ht & Hr & Hc & ->)]];
      try discriminate.
    intros [= <-]. split; trivial.
Qed.

(** A first price of zero: the return of A is infinite, and A leads
    the ranking. *)
Example zero_first_price_is_ranked_first :
  six_month_returns (dropna_all zero_start)
    = [("A"%string, pos_inf); ("B"%string, finite (55 / 50 - 1))] /\
  screen zero_start 2 = inr ["A"; "B"]%string.
Proof. split; reflexivity. Qed.

End ScreenFacts.

Section HorizonFacts.
Import Py Endpoint.

Lemma last_map {A B} (f : A -> B) (l : list A) (d : A) :
  last (map f l) (f d) = f (last l d).
Proof.
  induction l as [|a l IH]; trivial.
  destruct l as [|b l]; [reflexivity|exact IH].
Qed.

Lemma filter_map {A B} (g : B -> bool) (f : A -> B) (l : list A) :
  filter g (map f l) = map f (filter (fun a => g (f a)) l).
Proof.
  induction l as [|a l IH]; simpl; trivial.
  destruct (g (f a)); simpl; rewrite IH; reflexivity.
Qed.

(** [get_period] is the design's windowed return. *)
Lemma get_period_windowed (today : date) (p : params) (s : series) :
  get_period today p s =
  windowed_return (in_window (window_start today p) s).
Proof.
  unfold get_period, in_window.
  set (start := window_start today p).
  destruct (filter (fun dv => date_leb start (fst dv)) s)
    as [|[d0 v0] [|[d1 v1] rest]] eqn:E; trivial.
  cbn [length Nat.ltb Nat.leb hd snd].
  change (@snd date Q (d0, v0) :: snd (d1, v1) :: map snd rest)
    with (map (@snd date Q) ((d0, v0) :: (d1, v1) :: rest)).
  unfold windowed_return. cbn [map snd].
  change (v0 :: v1 :: map snd rest)
    with (map (@snd date Q) ((d0, v0) :: (d1, v1) :: rest)).
  rewrite (last_map (@snd date Q) _ (start, 0)). reflexivity.
Qed.

Lemma in_window_column (start : date) (f : aligned_row -> Q)
  (aligned : list aligned_row) :
  in_window start (column_of f aligned) =
  map f (filter (fun r => date_leb start (on r)) aligned).
Proof.
  unfold in_window, column_of. rewrite filter_map, map_map. reflexivity.
Qed.

Lemma benchmark_returns_table (today : date) (aligned : list aligned_row) :
  benchmark_returns today aligned =
  map (fun hp =>
         (fst hp,
          {| portfolio_return :=
               get_period today (snd hp) (column_of Portfolio aligned);
             benchmark_return :=
               get_period today (snd hp) (column_of Nifty aligned) |}))
    horizons.
Proof. reflexivity. Qed.

Lemma windowed_return_short (obs : list Q) :
  (length obs < 2)%nat -> windowed_return obs = None.
Proof. destruct obs as [|a [|b l]]; simpl; trivial. lia. Qed.



End HorizonFacts.

(** C6 as stated fails: C has two prices in the window, one of them on
    the last date, and is not ranked, because it has none on the first
    date; by its own first and last price it would lead the ranking
    with a return of 1. *)
Lemma C6_late_listing_is_not_ranked :
  nth_error (Endpoint.tickers Endpoint.late_listing) 2 = Some "C"%string /\
  Endpoint.observations 2 (Endpoint.dropna_all Endpoint.late_listing) = 2%nat /\
  ~ In "C"%string
      (map fst (Endpoint.six_month_returns
                  (Endpoint.dropna_all Endpoint.late_listing))) /\
  Endpoint.screen Endpoint.late_listing 3 = inr ["A"; "B"]%string.
Proof.
  repeat split.
  vm_compute. intros [H|[H|[]]]; discriminate.
Qed.

(** * Further facts *)

Lemma In_firstn {A} (n : nat) (l : list A) (a : A) :
  In a (firstn n l) -> In a l.
Proof.
  intros H. rewrite <- (firstn_skipn n l). apply in_or_app. auto.
Qed.

Lemma In_skipn {A} (n : nat) (l : list A) (a : A) :
  In a (skipn n l) -> In a l.
Proof.
  intros H. rewrite <- (firstn_skipn n l). apply in_or_app. auto.
Qed.

(** ** Dictionaries: lookup after update *)

Section DictLookupFacts.
Import Py.
Context {V : Type}.

Lemma get_set (d : dict V) (k k' : string) (v : V) :
  get (set d k v) k' = if String.eqb k' k then Some v else get d k'.
Proof.
  induction d as [|[k0 v0] d IH]; simpl.
  - reflexivity.
  - destruct (String.eqb_spec k k0) as [->|Hne]; simpl.
    + destruct (String.eqb k' k0); reflexivity.
    + rewrite IH. destruct (String.eqb_spec k' k0) as [->|Hne'].
      * destruct (String.eqb_spec k0 k); [congruence|reflexivity].
      * reflexivity.
Qed.

Lemma keys_set (d : dict V) (k k' : string) (v : V) :
  In k' (keys (set d k v)) <-> k' = k \/ In k' (keys d).
Proof.
  unfold keys. induction d as [|[k0 v0] d IH]; simpl.
  - intuition.
  - destruct (String.eqb_spec k k0) as [->|Hne]; simpl.
    + intuition.
    + rewrite IH. intuition.
Qed.

Lemma keys_set_nodup (d : dict V) (k : string) (v : V) :
  NoDup (keys d) -> NoDup (keys (set d k v)).
Proof.
  unfold keys. induction d as [|[k0 v0] d IH]; simpl; intros Hnd.
  - repeat constructor. intros [].
  - inversion Hnd as [|? ? Hnotin Hnd']; subst.
    destruct (String.eqb_spec k k0) as [->|Hne]; simpl.
    + constructor; assumption.
    + constructor; [|apply IH; assumption].
      intros Hin. apply (keys_set d k k0 v) in Hin.
      destruct Hin as [->|Hin]; [congruence|contradiction].
Qed.

Lemma get_in_keys (d : dict V) (k : string) :
  In k (keys d) <-> exists v, get d k = Some v.
Proof.
  unfold keys. induction d as [|[k0 v0] d IH]; simpl.
  - split; [intros []|intros [v [=]]].
  - destruct (String.eqb_spec k k0) as [->|Hne].
    + split; [eexists; reflexivity|auto].
    + rewrite <- IH. split; [intros [E|H]; [congruence|trivial]|auto].
Qed.

Lemma get_none_keys (d : dict V) (k : string) :
  get d k = None <-> ~ In k (keys d).
Proof.
  rewrite get_in_keys. destruct (get d k) as [v|].
  - split; [discriminate|]. intros H. destruct H. eexists. reflexivity.
  - split; trivial. intros _ [v [=]].
Qed.

End DictLookupFacts.

Section AccumulateFacts.
Import Py.
Context {A : Type} (key : A -> string) (w : A -> Q).

Local Abbreviation accumulate l d :=
  (fold_left (fun d a => add_to d (key a) (w a)) l d).

Lemma add_to_default (d : dict Q) (k k' : string) (x : Q) :
  get_default (add_to d k x) k' 0 =
  if String.eqb k' k then get_default d k 0 + x else get_default d k' 0.
Proof.
  unfold add_to, get_default at 1. rewrite get_set.
  destruct (String.eqb k' k); reflexivity.
Qed.

Lemma accumulate_default (l : list A) (d : dict Q) (k : string) :
  get_default (accumulate l d) k 0
  == get_default d k 0
     + Qsum (map w (filter (fun a => String.eqb (key a) k) l)).
Proof.
  revert d. induction l as [|a l IH]; intros d; simpl.
  - ring.
  - rewrite IH, add_to_default.
    rewrite (String.eqb_sym k (key a)).
    destruct (String.eqb_spec (key a) k) as [->|Hne]; simpl; ring.
Qed.

Lemma accumulate_keys (l : list A) (d : dict Q) (k : string) :
  In k (keys (accumulate l d)) <-> In k (keys d) \/ In k (map key l).
Proof.
  revert d. induction l as [|a l IH]; intros d; simpl.
  - tauto.
  - rewrite IH. unfold add_to. rewrite keys_set. intuition.
Qed.

Lemma accumulate_nodup (l : list A) (d : dict Q) :
  NoDup (keys d) -> NoDup (keys (accumulate l d)).
Proof.
  revert d. induction l as [|a l IH]; intros d Hnd; simpl; trivial.
  apply IH. unfold add_to. apply keys_set_nodup, Hnd.
Qed.

End AccumulateFacts.

Section DictUpdateFacts.
Import Py.

Lemma keys_set_same {V W} (d1 : dict V) (d2 : dict W) (k : string)
  (v : V) (w : W) :
  keys d1 = keys d2 -> keys (set d1 k v) = keys (set d2 k w).
Proof.
  unfold keys. revert d2.
  induction d1 as [|[k1 v1] d1 IH]; intros [|[k2 v2] d2] H;
    simpl in *; try discriminate; trivial.
  injection H as -> H.
  destruct (String.eqb k k2); simpl; f_equal; auto.
Qed.

Lemma In_set {V} (d : dict V) (k k' : string) (v v' : V) :
  In (k', v') (set d k v) -> (k', v') = (k, v) \/ In (k', v') d.
Proof.
  induction d as [|[k0 v0] d IH]; simpl.
  - intros [H|[]]. left. symmetry. exact H.
  - destruct (String.eqb_spec k k0) as [->|Hne]; simpl.
    + intros [H|H]; [left; symmetry; exact H|auto].
    + intros [H|H]; [auto|]. apply IH in H. tauto.
Qed.

End DictUpdateFacts.

(** ** The holdings calculator: what the totals, the maps and the two
    short lists say about the entries *)

Section HoldingsMore.
Import Py Holdings.
Variable current_prices : dict Q.
Variables sector_map class_map : dict string.

Local Abbreviation entry := (stock_of current_prices sector_map class_map).
Local Abbreviation keep := (included current_prices).
Local Abbreviation calculate :=
  (calculate_holdings_performance current_prices sector_map class_map).

Lemma Qsum_minus {A} (f g : A -> Q) (l : list A) :
  Qsum (map (fun a => f a - g a) l) == Qsum (map f l) - Qsum (map g l).
Proof.
  induction l as [|a l IH]; simpl.
  - ring.
  - rewrite IH. ring.
Qed.

Lemma Qsum_entries (f : stock -> Q) (kept : list holding) :
  Qsum (map f (sort_desc gain_loss_pct (map entry kept)))
  == Qsum (map (fun h => f (entry h)) kept).
Proof.
  rewrite (Qsum_perm _ (map f (map entry kept))).
  - rewrite map_map. reflexivity.
  - apply Permutation_map, sort_desc_perm.
Qed.

(** X1: the three totals are the sums of the matching column of the
    breakdown that is returned with them. *)
Theorem X1_totals_are_sums_over_breakdown (hs : list holding) :
  exists a : analytics,
    calculate hs = Ok a /\
    total_invested a == Qsum (map invested_amount (portfolio_data a)) /\
    total_current_value a == Qsum (map current_value (portfolio_data a)) /\
    total_gain_loss a == Qsum (map gain_loss (portfolio_data a)).
Proof.
  eexists. split; [apply calculate_closed_form|].
  cbn [analytics_of portfolio_data total_invested total_current_value
       total_gain_loss].
  rewrite !Qsum_entries. cbn [stock_of invested_amount current_value gain_loss].
  rewrite Qsum_minus, !fold_left_Qsum, !Qplus_0_l.
  repeat split; reflexivity.
Qed.

Lemma exposure_of_lookup (total : Q) (key : stock -> string)
  (entries : list stock) (k : string) :
  NoDup (keys (exposure_of total key entries)) /\
  (0 < total -> In k (map key entries) ->
   exists v,
     get (exposure_of total key entries) k = Some v /\
     v == Qsum (map (fun s => current_value s / total)
                  (filter (fun s => String.eqb (key s) k) entries))) /\
  (~ 0 < total \/ ~ In k (map key entries) ->
   get (exposure_of total key entries) k = None).
Proof.
  unfold exposure_of. destruct (Qlt_bool 0 total) eqn:E.
  - apply Qlt_bool_iff in E. split; [|split].
    + apply accumulate_nodup. constructor.
    + intros _ Hin.
      assert (Hk : In k (keys (fold_left
                   (fun d s => add_to d (key s) (current_value s / total))
                   entries []))).
      { apply accumulate_keys. right. exact Hin. }
      apply get_in_keys in Hk. destruct Hk as [v Hv]. exists v.
      split; trivial.
      pose proof (accumulate_default key (fun s => current_value s / total)
                    entries [] k) as Hd.
      unfold get_default at 1 in Hd. rewrite Hv in Hd.
      rewrite Hd. cbn. ring.
    + intros [H|H]; [contradiction|].
      apply get_none_keys. rewrite accumulate_keys. simpl. tauto.
  - split; [constructor|]. split.
    + intros H. apply Qlt_bool_iff in H. congruence.
    + reflexivity.
Qed.

(** X2: with a positive total value, the sector map holds one entry
    for every sector present in the breakdown, and its value is the sum
    of the shares [current_value / total_current_value] of the entries
    of that sector; a sector that is absent, or any sector when the
    total is not positive, has no entry.  The same holds for the asset
    classes. *)
Theorem X2_exposure_is_share_per_group (hs : list holding) :
  exists a : analytics,
    calculate hs = Ok a /\
    NoDup (keys (sector_exposure a)) /\
    NoDup (keys (asset_allocation a)) /\
    forall k,
      (0 < total_current_value a ->
       (In k (map sector (portfolio_data a)) ->
        exists v,
          get (sector_exposure a) k = Some v /\
          v == Qsum (map (fun s => current_value s / total_current_value a)
                       (filter (fun s => String.eqb (sector s) k)
                          (portfolio_data a)))) /\
       (In k (map asset_class (portfolio_data a)) ->
        exists v,
          get (asset_allocation a) k = Some v /\
          v == Qsum (map (fun s => current_value s / total_current_value a)
                       (filter (fun s => String.eqb (asset_class s) k)
                          (portfolio_data a))))) /\
      (~ 0 < total_current_value a \/
       ~ In k (map sector (portfolio_data a)) ->
       get (sector_exposure a) k = None) /\
      (~ 0 < total_current_value a \/
       ~ In k (map asset_class (portfolio_data a)) ->
       get (asset_allocation a) k = None).
Proof.
  eexists. split; [apply calculate_closed_form|].
  cbn [analytics_of portfolio_data total_current_value sector_exposure
       asset_allocation].
  split; [apply (exposure_of_lookup _ _ _ ""%string)|].
  split; [apply (exposure_of_lookup _ _ _ ""%string)|].
  intros k. split; [|split].
  - intros Hpos. split; intros Hin.
    + apply exposure_of_lookup; assumption.
    + apply exposure_of_lookup; assumption.
  - apply exposure_of_lookup.
  - apply exposure_of_lookup.
Qed.

Lemma entry_of_breakdown (hs : list holding) (s : stock) :
  In s (sort_desc gain_loss_pct (map entry (filter keep hs))) ->
  exists h, In h hs /\ 0 < price_of current_prices h /\
            0 < entry_price h /\ s = entry h.
Proof.
  rewrite sort_desc_In, in_map_iff. intros (h & <- & Hin).
  apply filter_In in Hin. destruct Hin as [Hin Hk].
  apply included_iff in Hk. exists h. tauto.
Qed.

Lemma positive_nonzero (x : Q) : 0 < x -> ~ x == 0.
Proof. intros H E. rewrite E in H. apply (Qlt_irrefl 0 H). Qed.

Lemma positive_quotient (x y : Q) : 0 < y -> (0 < x / y * 100 <-> 0 < x).
Proof.
  intros Hy.
  assert (Hinv : 0 < / y) by (apply Qinv_lt_0_compat; exact Hy).
  unfold Qdiv. split; intros H.
  - assert (Hx : x == x * / y * 100 * (y * (1 # 100))).
    { field. intros E. rewrite E in Hy. apply (Qlt_irrefl 0 Hy). }
    rewrite Hx. apply Qmult_lt_0_compat; trivial.
    apply Qmult_lt_0_compat; trivial. reflexivity.
  - apply Qmult_lt_0_compat; [|reflexivity].
    apply Qmult_lt_0_compat; trivial.
Qed.

Lemma negative_quotient (x y : Q) : 0 < y -> (x / y * 100 < 0 <-> x < 0).
Proof.
  intros Hy.
  pose proof (positive_quotient (- x) y Hy) as H.
  setoid_replace (- x / y * 100) with (- (x / y * 100)) in H
    by (unfold Qdiv; ring).
  split; intros Hx.
  - assert (0 < - x) by (apply H; lra). lra.
  - assert (0 < - (x / y * 100)) by (apply H; lra). lra.
Qed.

Lemma positive_factor (e q : Q) : 0 < e -> 0 < e * q -> 0 < q.
Proof.
  intros He Heq. apply Qnot_le_lt. intros Hq.
  assert (H : 0 <= e * - q) by (apply Qmult_le_0_compat; lra).
  assert (H' : e * - q == - (e * q)) by ring.
  rewrite H' in H. lra.
Qed.

(** How the percentage of an entry reads on its holding. *)
Lemma gain_sign (h : holding) :
  0 < entry_price h ->
  (0 < gain_loss_pct (entry h) <->
   0 < quantity h /\ entry_price h < price_of current_prices h) /\
  (gain_loss_pct (entry h) < 0 <->
   0 < quantity h /\ price_of current_prices h < entry_price h).
Proof.
  intros He. cbn [stock_of gain_loss_pct]. unfold value_of, invested_of.
  set (p := price_of current_prices h).
  set (e := entry_price h) in *. set (q := quantity h).
  assert (Hdiff : p * q - e * q == (p - e) * q) by ring.
  destruct (Qlt_bool 0 (e * q)) eqn:E.
  - apply Qlt_bool_iff in E.
    assert (Hq : 0 < q) by (apply (positive_factor e q); assumption).
    rewrite (positive_quotient _ _ E), (negative_quotient _ _ E), !Hdiff.
    split; split.
    + intros H. split; trivial.
      assert (0 < p - e); [|lra].
      apply (positive_factor q); trivial. rewrite Qmult_comm. exact H.
    + intros [_ H]. apply Qmult_lt_0_compat; lra.
    + intros H. split; trivial.
      assert (0 < e - p); [|lra].
      apply (positive_factor q); trivial.
      setoid_replace (q * (e - p)) with (- ((p - e) * q)) by ring. lra.
    + intros [_ H].
      assert (0 < (e - p) * q) by (apply Qmult_lt_0_compat; lra).
      setoid_replace ((p - e) * q) with (- ((e - p) * q)) by ring. lra.
  - assert (Hle : e * q <= 0).
    { apply Qnot_lt_le. intros H. apply Qlt_bool_iff in H. congruence. }
    assert (Hq : ~ 0 < q).
    { intros Hq. assert (0 < e * q) by (apply Qmult_lt_0_compat; trivial).
      lra. }
    split; split; try (intros [H _]; contradiction);
      intros H; exfalso; apply (Qlt_irrefl 0 H).
Qed.

Lemma ratio_of_entry (h : holding) :
  0 < entry_price h -> 0 < quantity h ->
  snd (ratio_entry (entry h))
  == (price_of current_prices h - entry_price h) / entry_price h.
Proof.
  intros He Hq. cbn [ratio_entry snd stock_of gain_loss_pct].
  unfold value_of, invested_of.
  rewrite (proj2 (Qlt_bool_iff 0 _) (Qmult_lt_0_compat _ _ He Hq)).
  field. split; apply positive_nonzero; assumption.
Qed.

(** X4: a pair among the gainers comes from a holding that passed the
    guard, with a positive quantity and a current price above its
    entry price, and its value is the relative price change; a pair
    among the losers comes from one with a positive quantity and a
    current price below its entry price.  A holding with a quantity
    that is not positive is therefore in neither list. *)
Theorem X4_gainers_rose_losers_fell (hs : list holding) :
  exists a : analytics,
    calculate hs = Ok a /\
    (forall t v,
       In (t, v) (top_gainers a) ->
       exists h,
         In h hs /\ ticker h = t /\ 0 < quantity h /\
         0 < entry_price h /\ entry_price h < price_of current_prices h /\
         v == (price_of current_prices h - entry_price h) / entry_price h) /\
    (forall t v,
       In (t, v) (top_losers a) ->
       exists h,
         In h hs /\ ticker h = t /\ 0 < quantity h /\
         0 < price_of current_prices h /\
         price_of current_prices h < entry_price h /\
         v == (price_of current_prices h - entry_price h) / entry_price h).
Proof.
  eexists. split; [apply calculate_closed_form|].
  cbn [analytics_of top_gainers top_losers]. split.
  - intros t v Hin. apply in_map_iff in Hin.
    destruct Hin as (s & Hs & Hin). apply filter_In in Hin.
    destruct Hin as [Hin Hpos]. apply Qlt_bool_iff in Hpos.
    apply In_firstn, entry_of_breakdown in Hin.
    destruct Hin as (h & Hh & Hp & He & ->).
    apply (gain_sign h He) in Hpos. destruct Hpos as [Hq Hrise].
    exists h. injection Hs as <- <-.
    repeat split; trivial. apply (ratio_of_entry h He Hq).
  - intros t v Hin. apply in_rev, in_map_iff in Hin.
    destruct Hin as (s & Hs & Hin). apply filter_In in Hin.
    destruct Hin as [Hin Hneg]. apply Qlt_bool_iff in Hneg.
    unfold take_last in Hin. apply In_skipn, entry_of_breakdown in Hin.
    destruct Hin as (h & Hh & Hp & He & ->).
    apply (gain_sign h He) in Hneg. destruct Hneg as [Hq Hfall].
    exists h. injection Hs as <- <-.
    repeat split; trivial. apply (ratio_of_entry h He Hq).
Qed.

End HoldingsMore.

Section HoldingsTop.
Import Py Holdings.
Variable current_prices : dict Q.
Variables sector_map class_map : dict string.

Local Abbreviation calculate :=
  (calculate_holdings_performance current_prices sector_map class_map).

Lemma filter_keeps_all {A} (f : A -> bool) (l : list A) :
  (forall a, In a l -> f a = true) -> filter f l = l.
Proof.
  intros H. apply forallb_filter_id, forallb_forall, H.
Qed.

Lemma in_front_or_back {A} (n : nat) (l : list A) (a : A) :
  In a l -> In a (firstn n l) \/ In a (skipn n l).
Proof.
  intros H. rewrite <- (firstn_skipn n l) in H. apply in_app_or, H.
Qed.

Lemma front_dominates_back {A} (key : A -> Q) (n : nat) (l : list A) :
  StronglySorted (fun u v => key v <= key u) l ->
  forall a b, In a (firstn n l) -> In b (skipn n l) -> key b <= key a.
Proof.
  intros H. rewrite <- (firstn_skipn n l) in H.
  apply sorted_app in H. destruct H as (_ & _ & H). exact H.
Qed.

(** X5: the two short lists are the ends of the ranking.  An entry
    with a positive percentage is among the gainers unless five
    gainers, each at least as good, are listed; an entry with a
    negative percentage is among the losers unless five losers, each
    at least as bad, are listed. *)
Theorem X5_short_lists_are_the_extremes (hs : list holding) :
  exists a : analytics,
    calculate hs = Ok a /\
    forall s,
      In s (portfolio_data a) ->
      (0 < gain_loss_pct s ->
       In (ratio_entry s) (top_gainers a) \/
       (length (top_gainers a) = 5%nat /\
        Forall (fun p => snd (ratio_entry s) <= snd p) (top_gainers a))) /\
      (gain_loss_pct s < 0 ->
       In (ratio_entry s) (top_losers a) \/
       (length (top_losers a) = 5%nat /\
        Forall (fun p => snd p <= snd (ratio_entry s)) (top_losers a))).
Proof.
  eexists. split; [apply calculate_closed_form|].
  cbn [analytics_of portfolio_data top_gainers top_losers].
  set (pd := sort_desc gain_loss_pct _).
  assert (Hsorted :
    StronglySorted (fun u v => gain_loss_pct v <= gain_loss_pct u) pd)
    by apply sort_desc_sorted.
  intros s Hs. split; intros Hsign.
  - destruct (in_front_or_back 5 pd s Hs) as [Hin|Hin].
    + left. apply in_map, filter_In. split; trivial.
      apply Qlt_bool_iff, Hsign.
    + right.
      assert (Hall : forall a, In a (take 5 pd) ->
                               gain_loss_pct s <= gain_loss_pct a).
      { intros a Ha.
        apply (front_dominates_back gain_loss_pct 5 pd Hsorted a s Ha Hin). }
      rewrite filter_keeps_all.
      * split.
        -- rewrite length_map. unfold take. rewrite length_firstn.
           assert (0 < length (skipn 5 pd))%nat
             by (destruct (skipn 5 pd); [destruct Hin|simpl; lia]).
           rewrite length_skipn in *. lia.
        -- rewrite Forall_forall. intros p Hp.
           apply in_map_iff in Hp. destruct Hp as (a & <- & Ha).
           apply ratio_entry_le, Hall, Ha.
      * intros a Ha. apply Qlt_bool_iff.
        apply Qlt_le_trans with (gain_loss_pct s); auto.
  - unfold take_last.
    destruct (in_front_or_back (length pd - 5) pd s Hs) as [Hin|Hin].
    + right.
      assert (Hall : forall b, In b (skipn (length pd - 5) pd) ->
                               gain_loss_pct b <= gain_loss_pct s).
      { intros b Hb.
        apply (front_dominates_back gain_loss_pct (length pd - 5) pd
                 Hsorted s b Hin Hb). }
      rewrite filter_keeps_all.
      * split.
        -- rewrite length_rev, length_map, length_skipn.
           assert (0 < length (firstn (length pd - 5) pd))%nat
             by (destruct (firstn (length pd - 5) pd);
                 [destruct Hin|simpl; lia]).
           rewrite length_firstn in *. lia.
        -- rewrite Forall_forall. intros p Hp.
           apply in_rev, in_map_iff in Hp. destruct Hp as (b & <- & Hb).
           apply ratio_entry_le, Hall, Hb.
      * intros b Hb. apply Qlt_bool_iff.
        apply Qle_lt_trans with (gain_loss_pct s); auto.
    + left. apply in_rev. rewrite rev_involutive.
      apply in_map, filter_In. split; trivial. apply Qlt_bool_iff, Hsign.
Qed.

End HoldingsTop.

(** ** Drawdown of a positive series *)

Section DrawdownMore.
Import Py Optimizer.

Lemma cummax_first (c : list Q) : nth 0 (cummax c) 0 = nth 0 c 0.
Proof. destruct c; reflexivity. Qed.

Lemma cummax_above (c : list Q) (t : nat) :
  (t < length c)%nat -> nth t c 0 <= nth t (cummax c) 0.
Proof.
  destruct t as [|t]; intros Ht.
  - rewrite cummax_first. apply Qle_refl.
  - rewrite cummax_step by trivial. apply Q.le_max_r.
Qed.

Lemma cummax_grows (c : list Q) (t : nat) :
  (S t < length c)%nat -> nth t (cummax c) 0 <= nth (S t) (cummax c) 0.
Proof.
  intros Ht. rewrite cummax_step by trivial. apply Q.le_max_l.
Qed.

Lemma cummax_attained (c : list Q) (t : nat) :
  (t < length c)%nat ->
  exists s, (s <= t)%nat /\ nth t (cummax c) 0 == nth s c 0.
Proof.
  induction t as [|t IH]; intros Ht.
  - exists O. split; trivial. rewrite cummax_first. reflexivity.
  - rewrite cummax_step by trivial.
    destruct (Q.max_dec (nth t (cummax c) 0) (nth (S t) c 0)) as [E|E].
    + destruct IH as (s & Hs & Hv); [lia|].
      exists s. split; [lia|]. rewrite E. exact Hv.
    + exists (S t). split; trivial.
Qed.

Lemma nth_positive (c : list Q) (t : nat) :
  Forall (fun v => 0 < v) c -> (t < length c)%nat -> 0 < nth t c 0.
Proof.
  intros H Ht. rewrite Forall_forall in H. apply H, nth_In, Ht.
Qed.

Lemma cummax_positive (c : list Q) (t : nat) :
  Forall (fun v => 0 < v) c -> (t < length c)%nat ->
  0 < nth t (cummax c) 0.
Proof.
  intros H Ht. apply Qlt_le_trans with (nth t c 0).
  - apply nth_positive; trivial.
  - apply cummax_above, Ht.
Qed.

(** On a positive series every drawdown is defined, above -1 and at
    most 0. *)
Lemma drawdown_of_positive (c : list Q) (t : nat) :
  Forall (fun v => 0 < v) c -> (t < length c)%nat ->
  exists d,
    nth t (drawdowns c) None = Some d /\
    d = (nth t c 0 - nth t (cummax c) 0) / nth t (cummax c) 0 /\
    - (1) < d /\ d <= 0.
Proof.
  intros H Ht.
  pose proof (nth_positive c t H Ht) as Hc.
  pose proof (cummax_positive c t H Ht) as HM.
  pose proof (cummax_above c t Ht) as Hle.
  eexists. split; [|split; [reflexivity|]].
  - rewrite drawdowns_nth. apply np_div_some. split; [|reflexivity].
    intros E. rewrite E in HM. apply (Qlt_irrefl 0 HM).
  - split.
    + apply Qlt_shift_div_l; trivial. lra.
    + apply Qle_shift_div_r; trivial. lra.
Qed.

Lemma nanmin_none (l : list (option Q)) (t : nat) :
  nanmin l = None -> nth t l None = None.
Proof.
  revert t. induction l as [|[a|] l IH]; intros t H; simpl in *.
  - destruct t; reflexivity.
  - destruct (nanmin l); discriminate.
  - destruct t; [reflexivity|]. apply IH, H.
Qed.

Lemma max_drawdown_of_positive (c : list Q) :
  Forall (fun v => 0 < v) c -> c <> [] ->
  exists m, max_drawdown c = Some m.
Proof.
  intros H Hne. unfold max_drawdown.
  destruct (nanmin (drawdowns c)) as [m|] eqn:E; [eauto|].
  assert (Ht : (0 < length c)%nat) by (destruct c; [congruence|simpl; lia]).
  destruct (drawdown_of_positive c O H Ht) as (d & Hd & _).
  rewrite (nanmin_none _ O E) in Hd. discriminate.
Qed.

Lemma max_drawdown_bounds (c : list Q) :
  Forall (fun v => 0 < v) c -> c <> [] ->
  exists m, max_drawdown c = Some m /\ - (1) < m /\ m <= 0.
Proof.
  intros H Hne. destruct (max_drawdown_of_positive c H Hne) as [m Hm].
  exists m. split; trivial.
  destruct (nanmin_some _ _ Hm) as [(t & v & Hv & Hmv) _].
  assert (Ht : (t < length c)%nat).
  { rewrite <- drawdowns_length. apply (nth_some_in_range _ _ _ Hv). }
  destruct (drawdown_of_positive c t H Ht) as (d & Hd & _ & Hlo & Hhi).
  rewrite Hv in Hd. injection Hd as <-. rewrite Hmv. auto.
Qed.

(** X6: on a series of positive values [max_drawdown] is a number
    above -1 and at most 0, reached at some period and not above the
    drawdown of any period. *)
Theorem X6_max_drawdown_between_minus_one_and_zero (c : list Q) :
  Forall (fun v => 0 < v) c -> c <> [] ->
  exists m,
    max_drawdown c = Some m /\ - (1) < m /\ m <= 0 /\
    (exists t, (t < length c)%nat /\
               m == (nth t c 0 - nth t (cummax c) 0) / nth t (cummax c) 0) /\
    (forall t, (t < length c)%nat ->
               m <= (nth t c 0 - nth t (cummax c) 0) / nth t (cummax c) 0).
Proof.
  intros H Hne. destruct (max_drawdown_bounds c H Hne) as (m & Hm & Hlo & Hhi).
  exists m. repeat split; trivial.
  - destruct (nanmin_some _ _ Hm) as [(t & v & Hv & Hmv) _].
    assert (Ht : (t < length c)%nat).
    { rewrite <- drawdowns_length. apply (nth_some_in_range _ _ _ Hv). }
    destruct (drawdown_of_positive c t H Ht) as (d & Hd & Hval & _).
    rewrite Hv in Hd. injection Hd as <-.
    exists t. split; trivial. rewrite Hmv, Hval. reflexivity.
  - intros t Ht.
    destruct (nanmin_some _ _ Hm) as [_ Hmin].
    destruct (drawdown_of_positive c t H Ht) as (d & Hd & <- & _).
    apply (Hmin t d Hd).
Qed.

Lemma cummax_of_rising (c : list Q) (t : nat) :
  (forall k, (S k < length c)%nat -> nth k c 0 <= nth (S k) c 0) ->
  (t < length c)%nat -> nth t (cummax c) 0 == nth t c 0.
Proof.
  intros Hup. induction t as [|t IH]; intros Ht.
  - rewrite cummax_first. reflexivity.
  - rewrite cummax_step by trivial. rewrite IH by lia.
    apply Q.max_r, Hup, Ht.
Qed.

(** X7: on a series of positive values [max_drawdown] is 0 exactly
    when no value is below the one before it. *)
Theorem X7_no_drawdown_iff_never_falls (c : list Q) :
  Forall (fun v => 0 < v) c -> c <> [] ->
  exists m,
    max_drawdown c = Some m /\
    (m == 0 <->
     forall t, (S t < length c)%nat -> nth t c 0 <= nth (S t) c 0).
Proof.
  intros H Hne. destruct (max_drawdown_of_positive c H Hne) as [m Hm].
  exists m. split; trivial.
  destruct (nanmin_some _ _ Hm) as [(t & v & Hv & Hmv) Hmin].
  split.
  - intros Hzero k Hk.
    assert (Hfull : forall j, (j < length c)%nat ->
                              nth j (cummax c) 0 <= nth j c 0).
    { intros j Hj.
      destruct (drawdown_of_positive c j H Hj) as (d & Hd & -> & _).
      specialize (Hmin j _ Hd). rewrite Hzero in Hmin.
      pose proof (cummax_positive c j H Hj) as HM.
      assert (Hx : 0 <= (nth j c 0 - nth j (cummax c) 0)
                         / nth j (cummax c) 0 * nth j (cummax c) 0)
        by (apply Qmult_le_0_compat; [exact Hmin|lra]).
      assert (E : (nth j c 0 - nth j (cummax c) 0)
                  / nth j (cummax c) 0 * nth j (cummax c) 0
                  == nth j c 0 - nth j (cummax c) 0).
      { field. intros E. rewrite E in HM. apply (Qlt_irrefl 0 HM). }
      rewrite E in Hx. lra. }
    apply Qle_trans with (nth k (cummax c) 0); [apply cummax_above; lia|].
    apply Qle_trans with (nth (S k) (cummax c) 0);
      [apply cummax_grows, Hk|apply Hfull, Hk].
  - intros Hup.
    assert (Ht : (t < length c)%nat).
    { rewrite <- drawdowns_length. apply (nth_some_in_range _ _ _ Hv). }
    destruct (drawdown_of_positive c t H Ht) as (d & Hd & Hval & _).
    rewrite Hv in Hd. injection Hd as <-. rewrite Hmv, Hval.
    rewrite (cummax_of_rising c t Hup Ht). unfold Qdiv. ring.
Qed.

Lemma scan_mult_positive (l : list Q) (acc : Q) :
  0 < acc -> Forall (fun v => 0 < v) l ->
  Forall (fun v => 0 < v) (scan Qmult acc l).
Proof.
  intros Hacc H. revert acc Hacc.
  induction H as [|a l Ha Hl IH]; intros acc Hacc; simpl; constructor.
  - apply Qmult_lt_0_compat; assumption.
  - apply IH. apply Qmult_lt_0_compat; assumption.
Qed.

Lemma cumprod_positive (l : list Q) :
  Forall (fun v => 0 < v) l -> Forall (fun v => 0 < v) (cumprod l).
Proof.
  intros H. destruct H as [|a l Ha Hl]; simpl; constructor; trivial.
  apply scan_mult_positive; assumption.
Qed.

(** X8: when the portfolio loses less than everything in every period
    and there is at least one period, the drawdown objective is a
    number from 0 up to, not including, 1. *)
Theorem X8_mdd_objective_in_unit_interval (returns_df : frame) (w : list Q) :
  rows returns_df <> [] ->
  Forall (fun r => - (1) < r) (frame_dot returns_df w) ->
  exists v, mdd_objective returns_df w = Ok (Some v) /\ 0 <= v /\ v < 1.
Proof.
  intros Hrows Hr. unfold mdd_objective.
  set (c := cumprod (map (fun r => 1 + r) (frame_dot returns_df w))).
  assert (Hpos : Forall (fun v => 0 < v) c).
  { apply cumprod_positive. rewrite Forall_forall in *.
    intros x Hx. apply in_map_iff in Hx. destruct Hx as (r & <- & Hin).
    specialize (Hr r Hin). lra. }
  assert (Hne : c <> []).
  { intros E. apply (f_equal (@length Q)) in E.
    unfold c, frame_dot in E. rewrite cumprod_length, !length_map in E.
    destruct (rows returns_df); [congruence|discriminate]. }
  destruct (max_drawdown_bounds c Hpos Hne) as (m & -> & Hlo & Hhi).
  exists (Qabs m). split; [reflexivity|]. split; [apply Qabs_nonneg|].
  rewrite (Qabs_neg m Hhi). lra.
Qed.

End DrawdownMore.

(** ** The universe and the screen: what is selected *)

Section SelectionMore.
Import Py Endpoint.

(** X9: the tickers the handler goes on with are tickers of the
    universe; there is at least one whenever the universe has a row;
    without filters they are all the tickers; and each of them passes
    the filters unless no row does. *)
Theorem X9_selection_within_universe_and_not_empty
  (df : list universe_row) (sectors asset_classes : list string) :
  incl (select_tickers df sectors asset_classes) (map Ticker df) /\
  (df <> [] -> select_tickers df sectors asset_classes <> []) /\
  select_tickers df [] [] = map Ticker df /\
  (forall t,
     In t (select_tickers df sectors asset_classes) ->
     (exists r, In r df /\ Ticker r = t /\
                matches sectors asset_classes r = true) \/
     (forall r, In r df -> matches sectors asset_classes r = false)).
Proof.
  rewrite select_tickers_filtered.
  set (kept := filter (matches sectors asset_classes) df).
  split; [|split; [|split]].
  - destruct (map Ticker kept) eqn:E; cbn [truthy].
    + apply incl_refl.
    + rewrite <- E. intros t Ht. apply in_map_iff in Ht.
      destruct Ht as (r & <- & Hr). apply filter_In in Hr.
      apply in_map, Hr.
  - intros Hne. destruct (map Ticker kept) eqn:E; cbn [truthy].
    + destruct df; [congruence|discriminate].
    + discriminate.
  - unfold select_tickers. cbn [truthy].
    destruct (map Ticker df); reflexivity.
  - intros t. destruct (map Ticker kept) eqn:E; cbn [truthy].
    + intros _. right. intros r Hr.
      destruct (matches sectors asset_classes r) eqn:Em; trivial.
      assert (Hin : In r kept) by (apply filter_In; auto).
      apply (in_map Ticker) in Hin. rewrite E in Hin. destruct Hin.
    + rewrite <- E. intros Ht. left. apply in_map_iff in Ht.
      destruct Ht as (r & <- & Hr). apply filter_In in Hr.
      exists r. tauto.
Qed.

Lemma numbered_labels {A} (l : list A) (s : nat) :
  map snd (combine (seq s (length l)) l) = l.
Proof.
  revert s. induction l as [|a l IH]; intros s; simpl; trivial.
  f_equal. apply IH.
Qed.

Lemma row_ratio_labels (p : prices) : map fst (row_ratio p) = tickers p.
Proof.
  unfold row_ratio. rewrite map_map. cbn [fst].
  apply numbered_labels.
Qed.

Lemma dropna_labels_incl {V} (s : list (string * option V)) :
  incl (map fst (dropna s)) (map fst s).
Proof.
  induction s as [|[t [v|]] s IH]; simpl.
  - apply incl_refl.
  - intros x [<-|Hx]; [left; reflexivity|right; apply IH, Hx].
  - intros x Hx. right. apply IH, Hx.
Qed.

Lemma dropna_labels_nodup {V} (s : list (string * option V)) :
  NoDup (map fst s) -> NoDup (map fst (dropna s)).
Proof.
  induction s as [|[t [v|]] s IH]; simpl; intros H; trivial;
    inversion H as [|? ? Hnotin Hnd]; subst; auto.
  constructor; auto. intros Hin. apply Hnotin, (dropna_labels_incl s), Hin.
Qed.

(** [head] is a prefix, whatever the sign of its argument. *)
Lemma head_is_prefix {A} (n : Z) (l : list A) :
  exists k, head n l = firstn k l /\ (0 <= n -> k = Z.to_nat n)%Z.
Proof.
  unfold head. destruct (Z.leb_spec 0 n).
  - eexists. split; [reflexivity|trivial].
  - eexists. split; [reflexivity|lia].
Qed.

Lemma six_month_returns_labels (p : prices) :
  Permutation (map fst (six_month_returns p))
    (map fst (dropna (row_ratio p))).
Proof. apply Permutation_map, sort_values_desc_perm. Qed.

Lemma screen_result (downloaded : prices) (num_stocks : Z) (l : list string) :
  screen downloaded num_stocks = inr l ->
  l = map fst (head num_stocks (six_month_returns (dropna_all downloaded)))
  /\ (2 <= length l)%nat.
Proof.
  intros H.
  destruct (screen_cases downloaded num_stocks)
    as [[_ E]|[(_ & _ & _ & E)|(_ & _ & Hc & E)]];
    rewrite E in H; try discriminate.
  injection H as <-. split; trivial.
Qed.

(** X10: the tickers selected by the screen are columns of the price
    matrix; no more than [num_stocks] of them when that number is not
    negative; and no ticker twice when no column label repeats. *)
Theorem X10_selected_are_distinct_columns
  (downloaded : prices) (num_stocks : Z) (l : list string) :
  screen downloaded num_stocks = inr l ->
  incl l (tickers downloaded) /\
  ((0 <= num_stocks)%Z -> (length l <= Z.to_nat num_stocks)%nat) /\
  (NoDup (tickers downloaded) -> NoDup l).
Proof.
  intros H. apply screen_result in H. destruct H as [-> _].
  set (p := dropna_all downloaded).
  destruct (head_is_prefix num_stocks (six_month_returns p))
    as (k & -> & Hk).
  rewrite <- firstn_map.
  split; [|split].
  - intros t Ht. apply In_firstn in Ht.
    apply (Permutation_in _ (six_month_returns_labels p)) in Ht.
    apply dropna_labels_incl in Ht. rewrite row_ratio_labels in Ht.
    exact Ht.
  - intros Hn. rewrite (Hk Hn). apply firstn_le_length.
  - intros Hnd.
    assert (Hall : NoDup (map fst (six_month_returns p))).
    { apply (Permutation_NoDup
               (Permutation_sym (six_month_returns_labels p))).
      apply dropna_labels_nodup. rewrite row_ratio_labels. exact Hnd. }
    rewrite <- (firstn_skipn k (map fst (six_month_returns p))) in Hall.
    apply NoDup_app_remove_r in Hall. exact Hall.
Qed.

(** X11: the screen selects from the top: the ranking is the selected
    tickers followed by the others, and no other ticker has a return
    above that of a selected one. *)
Theorem X11_selected_are_the_best
  (downloaded : prices) (num_stocks : Z) (l : list string) :
  screen downloaded num_stocks = inr l ->
  exists top rest,
    six_month_returns (dropna_all downloaded) = top ++ rest /\
    l = map fst top /\
    forall a b, In a top -> In b rest -> number_le (snd b) (snd a).
Proof.
  intros H. apply screen_result in H. destruct H as [-> _].
  set (ranked := six_month_returns (dropna_all downloaded)).
  destruct (head_is_prefix num_stocks ranked) as (k & -> & _).
  exists (firstn k ranked), (skipn k ranked).
  split; [symmetry; apply firstn_skipn|]. split; trivial.
  pose proof (sort_values_desc_sorted
                (dropna (row_ratio (dropna_all downloaded)))) as Hs.
  fold (six_month_returns (dropna_all downloaded)) in Hs. fold ranked in Hs.
  rewrite <- (firstn_skipn k ranked) in Hs.
  apply sorted_app in Hs. destruct Hs as (_ & _ & Hs). exact Hs.
Qed.

(** X12: asking for no stock or for one stock always ends in an error
    reply. *)
Theorem X12_fewer_than_two_requested_fails
  (downloaded : prices) (num_stocks : Z) :
  (0 <= num_stocks < 2)%Z ->
  exists e, screen downloaded num_stocks = inl e.
Proof.
  intros Hn.
  destruct (screen_cases downloaded num_stocks)
    as [[_ E]|[(_ & _ & _ & E)|(_ & _ & Hc & E)]]; eauto.
  exfalso. revert Hc.
  destruct (head_is_prefix num_stocks
              (six_month_returns (dropna_all downloaded))) as (k & -> & Hk).
  rewrite length_map.
  pose proof (firstn_le_length k
                (six_month_returns (dropna_all downloaded))).
  rewrite Hk in * by lia. lia.
Qed.

(** X13: a date on which no ticker has a price changes nothing in the
    outcome of the screen, wherever it stands in the window. *)
Theorem X13_dates_without_prices_are_ignored
  (labels : list string) (before after : list (list (option Q)))
  (blank : list (option Q)) (num_stocks : Z) :
  existsb is_some blank = false ->
  screen {| tickers := labels; closes := before ++ blank :: after |}
    num_stocks =
  screen {| tickers := labels; closes := before ++ after |} num_stocks.
Proof.
  intros Hblank. unfold screen.
  assert (E : dropna_all
                {| tickers := labels; closes := before ++ blank :: after |}
              = dropna_all
                  {| tickers := labels; closes := before ++ after |}).
  { unfold dropna_all. cbn [tickers closes]. f_equal.
    rewrite !filter_app. cbn [filter]. rewrite Hblank. reflexivity. }
  rewrite E. reflexivity.
Qed.

End SelectionMore.

(** ** Horizons: nested windows, charts *)

Section HorizonMore.
Import Py Endpoint Response.

Lemma date_leb_iff (a b : date) :
  date_leb a b = true <->
  (year a < year b \/
   (year a = year b /\
    (month a < month b \/ (month a = month b /\ day a <= day b))))%Z.
Proof.
  unfold date_leb.
  rewrite !orb_true_iff, !andb_true_iff, !orb_true_iff, !andb_true_iff,
    !Z.ltb_lt, !Z.eqb_eq, Z.leb_le.
  reflexivity.
Qed.

Lemma date_leb_trans (a b c : date) :
  date_leb a b = true -> date_leb b c = true -> date_leb a c = true.
Proof. rewrite !date_leb_iff. lia. Qed.

(** Going back more months gives an earlier start. *)
Lemma minus_months_earlier (d : date) (n1 n2 : Z) :
  (n1 < n2)%Z -> date_leb (minus_months d n2) (minus_months d n1) = true.
Proof.
  intros Hn. apply date_leb_iff. unfold minus_months. cbn [year month day].
  Z.div_mod_to_equations. lia.
Qed.

Lemma minus_year_earlier (d : date) :
  (1 <= month d <= 12)%Z ->
  date_leb (minus_years d 1) (minus_months d 6) = true.
Proof.
  intros Hm. apply date_leb_iff. unfold minus_months, minus_years.
  cbn [year month day]. Z.div_mod_to_equations. lia.
Qed.

Lemma minus_year_before_january (d : date) :
  date_leb (minus_years d 1) {| year := year d; month := 1; day := 1 |}
  = true.
Proof. apply date_leb_iff. cbn [minus_years year month day]. lia. Qed.

Lemma longer_window_keeps_more {A} (on' : A -> date) (s1 s2 : date)
  (l : list A) :
  date_leb s2 s1 = true ->
  (length (filter (fun r => date_leb s1 (on' r)) l)
   <= length (filter (fun r => date_leb s2 (on' r)) l))%nat.
Proof.
  intros H. induction l as [|r l IH]; simpl; trivial.
  destruct (date_leb s1 (on' r)) eqn:E1.
  - rewrite (date_leb_trans _ _ _ H E1). simpl. lia.
  - destruct (date_leb s2 (on' r)); simpl; lia.
Qed.

Lemma get_period_some (today : date) (p : params) (s : series) :
  get_period today p s <> None <->
  (2 <= length (filter (fun dv => date_leb (window_start today p) (fst dv))
                  s))%nat.
Proof.
  unfold get_period.
  destruct (Nat.ltb_spec
              (length (filter (fun dv => date_leb (window_start today p)
                                           (fst dv)) s)) 2).
  - split; [congruence|lia].
  - split; [trivial|discriminate].
Qed.

Lemma get_period_nested (today : date) (p1 p2 : params) (s : series) :
  date_leb (window_start today p2) (window_start today p1) = true ->
  get_period today p1 s <> None -> get_period today p2 s <> None.
Proof.
  intros H. rewrite !get_period_some.
  pose proof (longer_window_keeps_more (@fst date Q) _ _ s H). lia.
Qed.

(** X14: the windows are nested.  A series with a return over one
    month has one over three months, then over six months, then over
    one year; and one with a year-to-date return has one over one
    year.  So a missing one-year return means every return is
    missing. *)
Theorem X14_horizon_windows_are_nested (today : date) (s : series) :
  valid_date today ->
  (get_period today (months 1) s <> None ->
   get_period today (months 3) s <> None) /\
  (get_period today (months 3) s <> None ->
   get_period today (months 6) s <> None) /\
  (get_period today (months 6) s <> None ->
   get_period today (years 1) s <> None) /\
  (get_period today ytd s <> None ->
   get_period today (years 1) s <> None) /\
  (get_period today (years 1) s = None ->
   forall h p, In (h, p) horizons -> get_period today p s = None).
Proof.
  intros [Hm _].
  assert (H13 : get_period today (months 1) s <> None ->
                get_period today (months 3) s <> None).
  { apply get_period_nested, minus_months_earlier. lia. }
  assert (H36 : get_period today (months 3) s <> None ->
                get_period today (months 6) s <> None).
  { apply get_period_nested, minus_months_earlier. lia. }
  assert (H6Y : get_period today (months 6) s <> None ->
                get_period today (years 1) s <> None).
  { apply get_period_nested, minus_year_earlier, Hm. }
  assert (HYY : get_period today ytd s <> None ->
                get_period today (years 1) s <> None).
  { apply get_period_nested, minus_year_before_january. }
  repeat split; trivial.
  intros Hnone h p Hin.
  destruct Hin as [E|[E|[E|[E|[E|[]]]]]]; injection E as <- <-;
    match goal with
    | |- ?g = None => destruct g eqn:Eg; trivial; exfalso
    end; try congruence.
  - apply H6Y; [apply H36, H13|]; congruence.
  - apply H6Y; [apply H36|]; congruence.
  - apply H6Y; congruence.
  - apply HYY; congruence.
Qed.

Section ChartFacts.
Variable strftime : date -> string.

Lemma chart_data_table (today : date) (aligned : list aligned_row) :
  chart_data strftime today aligned =
  map (fun hp => (fst hp, chart_of strftime today (snd hp) aligned))
    horizons.
Proof. reflexivity. Qed.

(** X15: every horizon has a chart; its three lists have one entry
    per aligned row dated on or after the window start; and the return
    reported for the horizon is the return of the charted series: last
    over first less one with two or more points, none with fewer. *)
Theorem X15_reported_return_is_that_of_the_chart
  (today : date) (aligned : list aligned_row) :
  keys (chart_data strftime today aligned)
    = keys (benchmark_returns today aligned) /\
  forall h p,
    In (h, p) horizons ->
    exists c res,
      get (chart_data strftime today aligned) h = Some c /\
      get (benchmark_returns today aligned) h = Some res /\
      length (dates c) = length (portfolio c) /\
      length (nifty c) = length (portfolio c) /\
      portfolio_return res = windowed_return (portfolio c) /\
      benchmark_return res = windowed_return (nifty c) /\
      (portfolio_return res = None <-> (length (dates c) < 2)%nat) /\
      (benchmark_return res = None <-> (length (dates c) < 2)%nat).
Proof.
  split; [reflexivity|]. intros h p Hin.
  exists (chart_of strftime today p aligned).
  exists {| portfolio_return :=
              get_period today p (column_of Portfolio aligned);
            benchmark_return :=
              get_period today p (column_of Nifty aligned) |}.
  split; [|split].
  - rewrite chart_data_table.
    destruct Hin as [E|[E|[E|[E|[E|[]]]]]]; injection E as <- <-;
      reflexivity.
  - rewrite benchmark_returns_table.
    destruct Hin as [E|[E|[E|[E|[E|[]]]]]]; injection E as <- <-;
      reflexivity.
  - cbn [chart_of dates portfolio nifty portfolio_return benchmark_return].
    rewrite !get_period_windowed, !in_window_column, !length_map.
    set (sub := filter _ aligned).
    repeat split; trivial.
    + intros H. destruct sub as [|a [|b l]]; simpl in *;
        [lia|lia|discriminate].
    + intros H. apply windowed_return_short. rewrite length_map. exact H.
    + intros H. destruct sub as [|a [|b l]]; simpl in *;
        [lia|lia|discriminate].
    + intros H. apply windowed_return_short. rewrite length_map. exact H.
Qed.

End ChartFacts.

Lemma first_row_found (df : list universe_row) (t : string) :
  (exists r, first_row df t = inr r /\ In r df /\ Ticker r = t) \/
  (first_row df t = inl IndexError /\ ~ In t (map Ticker df)).
Proof.
  unfold first_row.
  destruct (find (fun r => String.eqb (Ticker r) t) df) as [r|] eqn:E.
  - left. apply find_some in E. destruct E as [Hin Heq].
    apply String.eqb_eq in Heq. eauto.
  - right. split; trivial. intros Hin. apply in_map_iff in Hin.
    destruct Hin as (r & <- & Hr).
    apply (find_none _ _ E) in Hr. rewrite String.eqb_refl in Hr.
    discriminate.
Qed.

Lemma weight_table_from_spec (df : list universe_row)
  (items : list (string * Q)) (acc : list weight_row) :
  (exists rows,
     weight_table_from df items acc = inr (acc ++ rows) /\
     map row_ticker rows = map fst items /\
     map row_weight rows = map snd items /\
     Forall (fun row =>
               exists r, In r df /\ Ticker r = row_ticker row /\
                         row_symbol row = Symbol r /\
                         row_sector row = Sector r /\
                         row_asset_class row = AssetClass r) rows) \/
  (weight_table_from df items acc = inl IndexError /\
   exists t, In t (map fst items) /\ ~ In t (map Ticker df)).
Proof.
  revert acc. induction items as [|[t w] items IH]; intros acc.
  - left. exists []. rewrite app_nil_r. repeat split; constructor.
  - cbn [weight_table_from].
    destruct (first_row_found df t) as [(r & -> & Hr & Ht)|[-> Hmiss]].
    + destruct (IH (acc ++ [ {| row_ticker := t; row_symbol := Symbol r;
                                row_sector := Sector r;
                                row_asset_class := AssetClass r;
                                row_weight := w |} ]))
        as [(rows & -> & Hk & Hw & Hall)|[-> (t' & Hin & Hno)]].
      * left. eexists (_ :: rows). rewrite <- app_assoc.
        split; [reflexivity|]. cbn [map row_ticker row_weight fst snd].
        rewrite Hk, Hw. repeat split; trivial.
        constructor; trivial. exists r. cbn. auto.
      * right. split; trivial. exists t'. split; [right|]; trivial.
    + right. split; trivial. exists t. split; [left; reflexivity|trivial].
Qed.

(** X16: the weight table has one row per weight, in the order of the
    weights, each with its ticker and weight unchanged and with the
    symbol, sector and asset class of a universe row of that ticker;
    it fails with [IndexError] exactly when some weighted ticker is
    not in the universe. *)
Theorem X16_weight_table_rows_or_index_error
  (df : list universe_row) (weights : dict Q) :
  (weight_table df weights = inl IndexError <->
   exists t, In t (keys weights) /\ ~ In t (map Ticker df)) /\
  (forall rows,
     weight_table df weights = inr rows ->
     map row_ticker rows = keys weights /\
     map row_weight rows = values weights /\
     Qsum (map row_weight rows) == Qsum (values weights) /\
     Forall (fun row =>
               exists r, In r df /\ Ticker r = row_ticker row /\
                         row_symbol row = Symbol r /\
                         row_sector row = Sector r /\
                         row_asset_class row = AssetClass r) rows).
Proof.
  unfold weight_table.
  destruct (weight_table_from_spec df weights [])
    as [(rows & E & Hk & Hw & Hall)|[E Hmiss]]; rewrite E.
  - split.
    + split; [discriminate|].
      intros (t & Hin & Hno). exfalso. apply Hno.
      unfold keys in Hin. rewrite <- Hk in Hin.
      apply in_map_iff in Hin. destruct Hin as (row & <- & Hrow).
      rewrite Forall_forall in Hall.
      destruct (Hall row Hrow) as (r & Hr & <- & _). apply in_map, Hr.
    + intros rows' [= <-]. cbn [app].
      repeat split; trivial. rewrite Hw. reflexivity.
  - split; [tauto|discriminate].
Qed.

End HorizonMore.

(** ** Reading the uploads *)

Section UploadFacts.
Import Py Holdings Upload.
Variable strip : string -> string.
Variable lower : string -> string.
Variable float : string -> option Q.

Local Abbreviation parse := (parse_current_holdings_csv strip lower float).
Local Abbreviation of_row := (holding_of_row strip float).
Local Abbreviation load := (load_mapping_file strip lower).

Lemma parse_loop (rows : list row) (acc : list holding) :
  fold_left
    (fun holdings r =>
       if (length r <? 3)%nat then holdings else holdings ++ [of_row r])
    rows acc
  = acc ++ map of_row (filter (fun r => (3 <=? length r)%nat) rows).
Proof.
  revert acc. induction rows as [|r rows IH]; intros acc.
  - cbn [fold_left filter map]. rewrite app_nil_r. reflexivity.
  - cbn [fold_left filter]. rewrite IH.
    destruct (Nat.ltb_spec (length r) 3) as [H|H].
    + rewrite (proj2 (Nat.leb_gt 3 (length r)) H). reflexivity.
    + rewrite (proj2 (Nat.leb_le 3 (length r)) H). cbn [map].
      rewrite <- app_assoc. reflexivity.
Qed.

(** The holdings read are the rows with three fields or more, after
    the header if there is one, in their order. *)
Lemma parse_closed_form (reader : list row) :
  exists start,
    (start <= 1)%nat /\
    parse reader =
    map of_row (filter (fun r => (3 <=? length r)%nat) (skipn start reader)).
Proof.
  unfold parse_current_holdings_csv. destruct reader as [|hdr rest].
  - exists O. split; [lia|reflexivity].
  - destruct (holdings_header lower hdr).
    + exists 1%nat. split; [lia|]. rewrite parse_loop. reflexivity.
    + exists O. split; [lia|]. rewrite parse_loop. reflexivity.
Qed.

Lemma parsed_from_row (reader : list row) (h : holding) :
  In h (parse reader) ->
  exists r, In r reader /\ (3 <= length r)%nat /\ h = of_row r.
Proof.
  destruct (parse_closed_form reader) as (start & _ & ->).
  intros H. apply in_map_iff in H. destruct H as (r & <- & Hr).
  apply filter_In in Hr. destruct Hr as [Hr Hlen].
  exists r. split; [apply (In_skipn start), Hr|].
  split; [apply Nat.leb_le, Hlen|reflexivity].
Qed.

Lemma parsed_length (reader : list row) :
  (length (parse reader) <= length reader)%nat.
Proof.
  destruct (parse_closed_form reader) as (start & _ & ->).
  rewrite length_map.
  etransitivity; [apply filter_length_le|].
  rewrite length_skipn. lia.
Qed.

(** X17: from the rows of an upload to the breakdown.  The breakdown
    has at most one entry per row, and each entry comes from a row with
    three fields or more whose third field parses to a positive price;
    the entry carries the stripped first field as ticker, that price,
    and as quantity the parsed fourth field, or 1 when it is absent or
    does not parse.  Short rows and rows with an unparsable price
    therefore never reach the analytics, and nothing raises. *)
Theorem X17_only_well_priced_rows_reach_the_breakdown
  (current_prices : dict Q) (sector_map class_map : dict string)
  (reader : list row) :
  exists a : analytics,
    calculate_holdings_performance current_prices sector_map class_map
      (parse reader) = Ok a /\
    (length (portfolio_data a) <= length (parse reader) <= length reader)%nat
    /\
    forall s,
      In s (portfolio_data a) ->
      exists r q,
        In r reader /\ (3 <= length r)%nat /\
        float (Upload.field 2 r) = Some q /\ 0 < q /\
        stock_ticker s = strip (Upload.field 0 r) /\
        stock_entry_price s = q /\
        stock_quantity s =
          (if (3 <? length r)%nat
           then match float (Upload.field 3 r) with
                | Some n => n
                | None => 1
                end
           else 1).
Proof.
  eexists. split; [apply calculate_closed_form|].
  cbn [analytics_of portfolio_data]. split.
  - split; [|apply parsed_length].
    rewrite sort_desc_length, length_map. apply filter_length_le.
  - intros s Hs. apply entry_of_breakdown in Hs.
    destruct Hs as (h & Hh & _ & He & ->).
    apply parsed_from_row in Hh. destruct Hh as (r & Hr & Hlen & ->).
    cbn [holding_of_row entry_price] in He. unfold float_or in He.
    destruct (float (Upload.field 2 r)) as [q|] eqn:Eq.
    + exists r, q. cbn [stock_of stock_ticker stock_entry_price stock_quantity
                        holding_of_row ticker entry_price quantity].
      unfold float_or. rewrite Eq. repeat split; trivial.
    + exfalso. apply (Qlt_irrefl 0 He).
Qed.

Lemma or_other_not_blank (present : bool) (s : string) :
  or_other present s <> ""%string.
Proof.
  unfold or_other. destruct present; simpl; [|discriminate].
  destruct (String.eqb_spec s ""); simpl; [discriminate|assumption].
Qed.

(** X18: the two maps read from a mapping file have the same tickers
    in the same order, each once; a ticker is mapped exactly when a
    data row with at least one field has it, stripped, as first field;
    no ticker is mapped to an empty sector or class; and a missing
    file leaves both maps empty. *)
Theorem X18_mapping_file_gives_two_maps_on_the_same_tickers
  (file : option (list row)) :
  let maps := load file in
  keys (fst maps) = keys (snd maps) /\
  NoDup (keys (fst maps)) /\
  (forall t v, In (t, v) (fst maps) -> v <> ""%string) /\
  (forall t v, In (t, v) (snd maps) -> v <> ""%string) /\
  (file = None -> maps = ([], [])) /\
  (forall reader t,
     file = Some reader ->
     In t (keys (fst maps)) ->
     exists r, In r reader /\ r <> [] /\ strip (Upload.field 0 r) = t) /\
  (forall reader t,
     file = Some reader ->
     mapping_header lower reader = false ->
     (In t (keys (fst maps)) <->
      exists r, In r reader /\ r <> [] /\ strip (Upload.field 0 r) = t)).
Proof.
  destruct file as [reader|]; cbn [load_mapping_file]; cbv zeta.
  2: { cbn [fst snd keys map].
       split; [reflexivity|]. split; [constructor|].
       split; [intros ? ? []|]. split; [intros ? ? []|].
       split; [reflexivity|]. split; intros; discriminate. }
  match goal with
  | |- context [fold_left ?f _ _] => set (step := f)
  end.
  assert (Hinv : forall rows maps,
    keys (fst maps) = keys (snd maps) ->
    NoDup (keys (fst maps)) ->
    (forall t v, In (t, v) (fst maps) -> v <> ""%string) ->
    (forall t v, In (t, v) (snd maps) -> v <> ""%string) ->
    let out := fold_left step rows maps in
    keys (fst out) = keys (snd out) /\
    NoDup (keys (fst out)) /\
    (forall t v, In (t, v) (fst out) -> v <> ""%string) /\
    (forall t v, In (t, v) (snd out) -> v <> ""%string) /\
    (forall t, In t (keys (fst out)) <->
               In t (keys (fst maps)) \/
               exists r, In r rows /\ r <> [] /\
                         strip (Upload.field 0 r) = t)).
  { induction rows as [|r rows IH]; intros maps Hk Hnd Hs Hc.
    - cbn. repeat split; trivial; [tauto|].
      intros [H|(r & [] & _)]. exact H.
    - cbn [fold_left]. destruct r as [|f0 fs].
      + cbn [step].
        destruct (IH maps Hk Hnd Hs Hc) as (H1 & H2 & H3 & H4 & H5).
        repeat split; trivial.
        * intros H. apply H5 in H. destruct H as [H|(r & Hr & Hne & E)];
            [tauto|]. right. exists r. simpl. tauto.
        * intros [H|(r & [<-|Hr] & Hne & E)]; apply H5; [tauto|congruence|].
          right. exists r. tauto.
      + set (maps' := step maps (f0 :: fs)).
        destruct (IH maps') as (H1 & H2 & H3 & H4 & H5).
        * apply keys_set_same, Hk.
        * apply keys_set_nodup, Hnd.
        * intros t v H. apply In_set in H. destruct H as [E|H];
            [injection E as _ ->; apply or_other_not_blank|eapply Hs, H].
        * intros t v H. apply In_set in H. destruct H as [E|H];
            [injection E as _ ->; apply or_other_not_blank|eapply Hc, H].
        * repeat split; trivial.
          -- intros H. apply H5 in H. destruct H as [H|(r & Hr & Hne & E)].
             ++ cbn [maps' step fst] in H. apply keys_set in H.
                destruct H as [->|H]; [|tauto].
                right. exists (f0 :: fs). simpl. split; [auto|].
                split; [discriminate|reflexivity].
             ++ right. exists r. simpl. tauto.
          -- intros H. apply H5. cbn [maps' step fst].
             destruct H as [H|(r & [<-|Hr] & Hne & E)].
             ++ left. apply keys_set. tauto.
             ++ left. apply keys_set. left. symmetry. exact E.
             ++ right. exists r. tauto. }
  set (start := if mapping_header lower reader then 1%nat else 0%nat).
  pose proof (Hinv (skipn start reader) ([], []) eq_refl (NoDup_nil _)
                (fun _ _ H => match H with end)
                (fun _ _ H => match H with end)) as Hstart.
  cbv zeta in Hstart. destruct Hstart as (H1 & H2 & H3 & H4 & H5).
  split; [exact H1|]. split; [exact H2|]. split; [exact H3|].
  split; [exact H4|]. split; [discriminate|]. split.
  - intros reader' t E Ht. injection E as <-. apply H5 in Ht.
    destruct Ht as [[]|(r & Hr & Hne & E)].
    exists r. split; [apply (In_skipn start), Hr|tauto].
  - intros reader' t E Hhdr. injection E as <-. rewrite H5.
    unfold start. rewrite Hhdr. cbn [skipn fst keys map In]. tauto.
Qed.

End UploadFacts.

Section UploadReply.
Import Py Holdings Upload.
Variable strip : string -> string.
Variable lower : string -> string.
Variable float : string -> option Q.
Variable decode : list Byte.byte -> option string.
Variable csv_reader : string -> string + list row.
Variable get_current_prices : list string -> dict Q.

Local Abbreviation parse := (parse_current_holdings_csv strip lower float).
Local Abbreviation load := (load_mapping_file strip lower).
Local Abbreviation serve := (upload strip lower float decode csv_reader).

Lemma distinct_In (l : list string) (t : string) :
  In t (distinct l) <-> In t l.
Proof.
  induction l as [|u l IH]; simpl; [tauto|].
  rewrite filter_In, IH, negb_true_iff.
  destruct (String.eqb_spec t u) as [->|Hne]; split; intros H; auto.
  - destruct H as [H|[H _]]; auto.
  - destruct H as [H|H]; [congruence|auto].
Qed.

Lemma distinct_NoDup (l : list string) : NoDup (distinct l).
Proof.
  induction l as [|u l IH]; simpl; constructor.
  - rewrite filter_In, String.eqb_refl. intros [_ H]. discriminate.
  - apply NoDup_filter, IH.
Qed.

Lemma load_same_keys (mapping : option (list row)) :
  keys (fst (load mapping)) = keys (snd (load mapping)).
Proof.
  destruct mapping as [rows|]; [|reflexivity].
  cbn [load_mapping_file].
  match goal with
  | |- context [fold_left ?f ?l _] =>
      generalize l; intros rows';
      assert (H : forall acc : dict string * dict string,
                keys (fst acc) = keys (snd acc) ->
                keys (fst (fold_left f rows' acc))
                = keys (snd (fold_left f rows' acc)))
  end.
  { induction rows' as [|r rows' IH]; intros acc Hacc; trivial.
    cbn [fold_left]. apply IH. destruct r; trivial.
    cbn [fst snd]. apply keys_set_same, Hacc. }
  apply H. reflexivity.
Qed.

(** The ways [upload] ends, from the rows on. *)
Lemma upload_from_rows (raw : list Byte.byte) (text : string)
  (reader : list row) (sector_map class_map : dict string) :
  decode raw = Some text -> csv_reader text = inr reader ->
  (parse reader = [] /\
   serve (Some raw) get_current_prices sector_map class_map
   = error_reply 400 "No valid holdings found in CSV") \/
  (parse reader <> [] /\
   get_current_prices (map ticker (parse reader)) = [] /\
   serve (Some raw) get_current_prices sector_map class_map
   = error_reply 500 "Unable to fetch current prices from Yahoo Finance") \/
  (exists r,
     parse reader <> [] /\
     get_current_prices (map ticker (parse reader)) <> [] /\
     serve (Some raw) get_current_prices sector_map class_map
     = analytics_reply r /\
     portfolioDetails r =
       sort_desc gain_loss_pct
         (map (stock_of (get_current_prices (map ticker (parse reader)))
                 sector_map class_map)
            (filter (included
                       (get_current_prices (map ticker (parse reader))))
               (parse reader))) /\
     unmappedTickers r =
       filter (fun t => negb (Endpoint.is_some (get sector_map t)))
         (distinct (map ticker (parse reader))) /\
     totalHoldings r = length (parse reader) /\
     pricesFetched r
       = length (get_current_prices (map ticker (parse reader)))).
Proof.
  intros Hd Hc. unfold upload. rewrite Hd, Hc.
  destruct (parse reader) as [|h hs] eqn:Eh.
  - left. auto.
  - right.
    destruct (get_current_prices (map ticker (h :: hs))) as [|c cs] eqn:Ec.
    + left. repeat split; trivial. discriminate.
    + right. rewrite calculate_closed_form.
      eexists. split; [discriminate|]. split; [discriminate|].
      split; [reflexivity|].
      cbn [portfolioDetails unmappedTickers totalHoldings pricesFetched
           analytics_of portfolio_data].
      repeat split.
Qed.

(** X19: how [upload] ends.  Without a file part it answers 400; a
    content that is not UTF-8 raises out of the handler before its
    [try]; a text the CSV reader rejects is answered 500 "Error
    processing holdings" with the reader's message, and that reply is
    sent in no other case, since nothing raises after the rows are
    read; no holding read gives 400, no price back gives 500.
    Otherwise the analytics are returned: with the maps read from the
    mapping file, the unmapped tickers are listed once each, they are
    the tickers read that the mapping lacks, and every entry of such a
    ticker is under sector and asset class "Other"; the count of
    holdings is that of the holdings read, not less than the
    entries. *)
Theorem X19_upload_replies (file : option (list Byte.byte))
  (mapping : option (list row)) :
  let maps := load mapping in
  let out := serve file get_current_prices (fst maps) (snd maps) in
  (file = None <-> out = error_reply 400 no_file_part) /\
  (forall raw,
     file = Some raw ->
     (decode raw = None <-> out = unicode_decode_error) /\
     forall text,
       decode raw = Some text ->
       (forall e,
          csv_reader text = inl e <->
          out = error_reply 500 ("Error processing holdings: " ++ e)%string)
       /\
       forall reader,
         csv_reader text = inr reader ->
         (parse reader = [] <->
          out = error_reply 400 "No valid holdings found in CSV") /\
         (parse reader <> [] /\
          get_current_prices (map ticker (parse reader)) = [] <->
          out = error_reply 500
                  "Unable to fetch current prices from Yahoo Finance") /\
         (parse reader <> [] /\
          get_current_prices (map ticker (parse reader)) <> [] <->
          exists r, out = analytics_reply r) /\
         forall r,
           out = analytics_reply r ->
           totalHoldings r = length (parse reader) /\
           (length (portfolioDetails r) <= totalHoldings r)%nat /\
           NoDup (unmappedTickers r) /\
           (forall t,
              In t (unmappedTickers r) <->
              In t (map ticker (parse reader)) /\
              ~ In t (keys (fst maps))) /\
           (forall s,
              In s (portfolioDetails r) ->
              In (stock_ticker s) (unmappedTickers r) ->
              sector s = "Other"%string /\ asset_class s = "Other"%string)).
Proof.
  intros maps out.
  assert (Hkeys : keys (fst maps) = keys (snd maps))
    by apply load_same_keys.
  split.
  { unfold out, upload. destruct file as [raw|]; [|tauto].
    split; [discriminate|].
    destruct (decode raw) as [text|]; [|discriminate].
    destruct (csv_reader text) as [e|reader]; [discriminate|].
    destruct (parse reader); [discriminate|].
    destruct (get_current_prices _); [discriminate|].
    rewrite calculate_closed_form. discriminate. }
  intros raw ->. split.
  { unfold out, upload. destruct (decode raw) as [text|]; [|tauto].
    split; [discriminate|].
    destruct (csv_reader text) as [e|reader]; [discriminate|].
    destruct (parse reader); [discriminate|].
    destruct (get_current_prices _); [discriminate|].
    rewrite calculate_closed_form. discriminate. }
  intros text Hd. split.
  { intros e. destruct (csv_reader text) as [e'|reader] eqn:Hc.
    - unfold out, upload. rewrite Hd, Hc. split.
      + intros E. injection E as <-. reflexivity.
      + intros E. injection E as E. congruence.
    - split; [discriminate|]. intros E. exfalso.
      destruct (upload_from_rows raw text reader (fst maps) (snd maps) Hd Hc)
        as [[_ E']|[(_ & _ & E')|(r & _ & _ & E' & _)]];
        fold out in E'; rewrite E' in E; cbn in E; discriminate. }
  intros reader Hc.
  destruct (upload_from_rows raw text reader (fst maps) (snd maps) Hd Hc)
    as [[Hp E]|[(Hp & Hc' & E)|(r & Hp & Hc' & E & Hdet & Hu & Hn & _)]];
    fold out in E; rewrite E.
  - split; [tauto|]. split; [split; [intros [H _]; contradiction|
                                     discriminate]|].
    split; [split; [intros [H _]; contradiction|intros [r [=]]]|].
    discriminate.
  - split; [split; [contradiction|discriminate]|]. split; [tauto|].
    split; [split; [intros [_ H]; contradiction|intros [r [=]]]|].
    discriminate.
  - split; [split; [contradiction|discriminate]|].
    split; [split; [intros [_ H]; contradiction|discriminate]|].
    split; [split; [eauto|tauto]|].
    intros r' Er. injection Er as <-.
    assert (Hunmapped : forall t,
      In t (unmappedTickers r) <->
      In t (map ticker (parse reader)) /\ ~ In t (keys (fst maps))).
    { intros t. rewrite Hu, filter_In, distinct_In, negb_true_iff.
      rewrite <- get_none_keys.
      destruct (get (fst maps) t); simpl; split; intros [H1 H2];
        split; trivial; discriminate. }
    split; [exact Hn|]. split; [|split; [|split; [exact Hunmapped|]]].
    + rewrite Hn, Hdet, sort_desc_length, length_map. apply filter_length_le.
    + rewrite Hu. apply NoDup_filter, distinct_NoDup.
    + intros s Hs Hin. rewrite Hdet in Hs.
      apply sort_desc_In, in_map_iff in Hs. destruct Hs as (h & <- & _).
      cbn [stock_of stock_ticker sector asset_class] in *.
      apply Hunmapped in Hin. destruct Hin as [_ Hno].
      unfold get_default.
      rewrite (proj2 (get_none_keys (fst maps) (ticker h)) Hno).
      rewrite Hkeys in Hno.
      rewrite (proj2 (get_none_keys (snd maps) (ticker h)) Hno).
      auto.
Qed.

End UploadReply.

(** ** The optimiser, whatever the solver does *)

Section OptimizerMore.
Import Py Optimizer.
Variable np_sqrt : Q -> Q.
Variable minimize :
  objective_fun -> list Q -> list (Q * Q) -> constraint -> OptimizeResult.

Lemma fill_entries {V} (pairs : list (string * V)) (d : dict V) :
  let out := fold_left (fun d kv => set d (fst kv) (snd kv)) pairs d in
  (NoDup (keys d) -> NoDup (keys out)) /\
  (forall k v, In (k, v) out -> In (k, v) d \/ In (k, v) pairs) /\
  (forall k, In k (keys out) <-> In k (keys d) \/ In k (map fst pairs)).
Proof.
  revert d. induction pairs as [|[k0 v0] pairs IH]; intros d; cbn.
  - split; [trivial|]. split; [auto|]. intros k; tauto.
  - destruct (IH (set d k0 v0)) as (H1 & H2 & H3). split; [|split].
    + intros Hnd. apply H1, keys_set_nodup, Hnd.
    + intros k v H. apply H2 in H. destruct H as [H|H].
      * apply In_set in H. destruct H as [H|H].
        -- right. left. symmetry. exact H.
        -- left. exact H.
      * right. right. exact H.
    + intros k. rewrite H3, keys_set. intuition.
Qed.

(** X3: for each of the three objectives and any solver, the function
    makes one solve and returns; the weight mapping has every ticker
    at most once, pairs a column label only with the solver's weight at
    that column, and has a key for exactly the labels that got a
    weight; the three metrics are [portfolio_stats] at the solver's
    point. *)
Theorem X3_weights_and_metrics_come_from_the_solver_point
  (returns_df : frame) (objective : string) (rf : Q) :
  objective = "sharpe"%string \/ objective = "vol"%string \/
  objective = "mdd"%string ->
  exists call weights port_return port_vol sharpe,
    optimize_portfolio_weights np_sqrt minimize returns_df objective rf =
      ([call], Ok (weights, port_return, port_vol, sharpe)) /\
    let point := x (minimize (call_fun call) (call_x0 call)
                      (call_bounds call) (call_constraints call)) in
    NoDup (keys weights) /\
    (forall k v, In (k, v) weights ->
                 In (k, v) (combine (columns returns_df) point)) /\
    (forall k, In k (keys weights) <->
               In k (map fst (combine (columns returns_df) point))) /\
    portfolio_stats np_sqrt point returns_df rf =
      Ok (port_return, port_vol, sharpe).
Proof.
  intros [ -> | [ -> | -> ] ];
    [ rewrite optimize_sharpe | rewrite optimize_vol | rewrite optimize_mdd ];
    unfold call_minimize, tbind, lift, tret;
    rewrite portfolio_stats_total;
    do 5 eexists; (split; [reflexivity|]);
    cbn [call_fun call_x0 call_bounds call_constraints];
    match goal with
    | |- context [of_zip ?ks ?vs] =>
        destruct (fill_entries (combine ks vs) []) as (H1 & H2 & H3)
    end;
    (split; [apply H1; constructor|]);
    (split; [intros k v H; apply H2 in H; destruct H as [[]|H]; exact H|]);
    (split; [intros k; unfold of_zip; rewrite H3; simpl; tauto|]);
    apply portfolio_stats_total.
Qed.

End OptimizerMore.

(** ** Instances *)

Lemma X6_max_drawdown_between_minus_one_and_zero_witness :
  Forall (fun v => 0 < v) [1; 12 # 10; 9 # 10; 1] /\
  exists m,
    Optimizer.max_drawdown [1; 12 # 10; 9 # 10; 1] = Some m /\
    - (1) < m /\ m <= 0.
Proof.
  assert (Hpos : Forall (fun v => 0 < v) [1; 12 # 10; 9 # 10; 1])
    by (repeat constructor).
  split; [exact Hpos|].
  destruct (X6_max_drawdown_between_minus_one_and_zero
              [1; 12 # 10; 9 # 10; 1] Hpos)
    as (m & Hm & Hlo & Hhi & _); [discriminate|].
  exists m. auto.
Defined.

Lemma X7_no_drawdown_iff_never_falls_witness :
  Forall (fun v => 0 < v) [1; 11 # 10; 11 # 10; 2] /\
  exists m,
    Optimizer.max_drawdown [1; 11 # 10; 11 # 10; 2] = Some m /\
    (m == 0 <->
     forall t, (S t < 4)%nat ->
               nth t [1; 11 # 10; 11 # 10; 2] 0
               <= nth (S t) [1; 11 # 10; 11 # 10; 2] 0).
Proof.
  assert (Hpos : Forall (fun v => 0 < v) [1; 11 # 10; 11 # 10; 2])
    by (repeat constructor).
  split; [exact Hpos|].
  apply (X7_no_drawdown_iff_never_falls [1; 11 # 10; 11 # 10; 2] Hpos).
  discriminate.
Defined.

Lemma X8_mdd_objective_in_unit_interval_witness :
  Forall (fun r => - (1) < r)
    (Optimizer.frame_dot Optimizer.example_returns [1 # 2; 1 # 2]) /\
  exists v,
    Optimizer.mdd_objective Optimizer.example_returns [1 # 2; 1 # 2]
    = Py.Ok (Some v) /\ 0 <= v /\ v < 1.
Proof.
  assert (Hr : Forall (fun r => - (1) < r)
                 (Optimizer.frame_dot Optimizer.example_returns
                    [1 # 2; 1 # 2]))
    by (repeat constructor).
  split; [exact Hr|].
  apply (X8_mdd_objective_in_unit_interval Optimizer.example_returns
           [1 # 2; 1 # 2]); [discriminate|exact Hr].
Defined.

Lemma X10_selected_are_distinct_columns_witness :
  Endpoint.screen Endpoint.late_listing 3 = inr ["A"; "B"]%string /\
  incl ["A"; "B"]%string (Endpoint.tickers Endpoint.late_listing) /\
  (length ["A"; "B"]%string <= 3)%nat /\
  NoDup ["A"; "B"]%string.
Proof.
  destruct (X10_selected_are_distinct_columns Endpoint.late_listing 3
              ["A"; "B"]%string eq_refl) as (Hincl & Hlen & Hnd).
  split; [reflexivity|]. split; [exact Hincl|].
  split; [apply Hlen; lia|].
  apply Hnd. repeat constructor; simpl; intuition discriminate.
Defined.

Lemma X11_selected_are_the_best_witness :
  Endpoint.screen Endpoint.late_listing 3 = inr ["A"; "B"]%string /\
  exists top rest,
    Endpoint.six_month_returns (Endpoint.dropna_all Endpoint.late_listing)
    = top ++ rest /\
    ["A"; "B"]%string = map fst top /\
    forall a b, In a top -> In b rest ->
                Endpoint.number_le (snd b) (snd a).
Proof.
  split; [reflexivity|].
  apply (X11_selected_are_the_best Endpoint.late_listing 3
           ["A"; "B"]%string eq_refl).
Defined.

Lemma X12_fewer_than_two_requested_fails_witness :
  (0 <= 1 < 2)%Z /\
  exists e, Endpoint.screen Endpoint.late_listing 1 = inl e.
Proof.
  split; [lia|].
  apply (X12_fewer_than_two_requested_fails Endpoint.late_listing 1). lia.
Defined.

Lemma X13_dates_without_prices_are_ignored_witness :
  existsb Endpoint.is_some [@None Q; None; None] = false /\
  Endpoint.screen
    {| Endpoint.tickers := Endpoint.tickers Endpoint.late_listing;
       Endpoint.closes :=
         [[Some 100; Some 50; None]]
         ++ [None; None; None]
              :: [[Some 110; Some 55; Some 10];
                  [Some 120; Some 45; Some 20]] |} 3
  = Endpoint.screen
      {| Endpoint.tickers := Endpoint.tickers Endpoint.late_listing;
         Endpoint.closes :=
           [[Some 100; Some 50; None]]
           ++ [[Some 110; Some 55; Some 10];
               [Some 120; Some 45; Some 20]] |} 3.
Proof.
  split; [reflexivity|].
  apply (X13_dates_without_prices_are_ignored
           (Endpoint.tickers Endpoint.late_listing)
           [[Some 100; Some 50; None]]
           [[Some 110; Some 55; Some 10]; [Some 120; Some 45; Some 20]]
           [None; None; None] 3).
  reflexivity.
Defined.

Lemma X14_horizon_windows_are_nested_witness :
  Response.valid_date
    {| Endpoint.year := 2024; Endpoint.month := 3; Endpoint.day := 15 |} /\
  (Endpoint.get_period
     {| Endpoint.year := 2024; Endpoint.month := 3; Endpoint.day := 15 |}
     (Endpoint.months 1)
     (Endpoint.column_of Endpoint.Portfolio Endpoint.ten_days) <> None ->
   Endpoint.get_period
     {| Endpoint.year := 2024; Endpoint.month := 3; Endpoint.day := 15 |}
     (Endpoint.months 3)
     (Endpoint.column_of Endpoint.Portfolio Endpoint.ten_days) <> None).
Proof.
  assert (Hvalid : Response.valid_date
            {| Endpoint.year := 2024; Endpoint.month := 3;
               Endpoint.day := 15 |})
    by (unfold Response.valid_date; cbn; lia).
  split; [exact Hvalid|].
  apply (X14_horizon_windows_are_nested _
           (Endpoint.column_of Endpoint.Portfolio Endpoint.ten_days) Hvalid).
Defined.

Lemma X3_weights_and_metrics_come_from_the_solver_point_witness :
  exists call weights port_return port_vol sharpe,
    Optimizer.optimize_portfolio_weights Optimizer.sqrt_floor
      Optimizer.stay_put Optimizer.example_returns "vol" 0 =
      ([call], Py.Ok (weights, port_return, port_vol, sharpe)) /\
    NoDup (Py.keys weights).
Proof.
  destruct (X3_weights_and_metrics_come_from_the_solver_point
              Optimizer.sqrt_floor Optimizer.stay_put
              Optimizer.example_returns "vol" 0)
    as (call & weights & pr & pv & sh & Heq & Hnd & _).
  - right. left. reflexivity.
  - exists call, weights, pr, pv, sh. auto.
Defined.
